(** * Backup export engine of beads: [cmd/bd/backup_export.go]

    A shallow embedding of the export engine and the properties its
    specification states about it.

    The Go code talks to three things it does not own: the relational
    store (a package-level [store] with [QueryContext] and
    [GetCurrentCommit]), the operating system (files, temp files, the
    clock) and Go's standard library ([encoding/json], [time.Format]).
    All three are gathered in one record, [Env].  The store and the
    operating system answer by the instant at which they are asked (the
    number of calls made so far), so an environment may answer the same
    question differently at different times; the library functions are
    pure.

    [debug.Logf] only writes a diagnostic line and is left out.

    Code that returns [(T, error)] with a zero [T] on every error path is
    modelled with [Result T]; [exportTable] and [exportEventsIncremental]
    keep Go's pair, because [exportTable] returns a non-zero count together
    with the error of the final write. *)

From Stdlib Require Import ZArith String Ascii Strings.Byte List Lia Permutation Sorted.
From stdpp Require Import base gmap list strings pretty countable.

(** ** Go values and errors *)

(** [error]: [None] is Go's [nil].  [os.IsNotExist] recognises
    [ErrNotExist]; every other failure carries its message. *)
Inductive error_value :=
| ErrNotExist
| ErrMsg (msg : string).

Definition error := option error_value.

Inductive Result (A : Type) :=
| Ok (a : A)
| Err (e : error_value).
Arguments Ok {A} a.
Arguments Err {A} e.

Definition error_message (e : error_value) : string :=
  match e with
  | ErrNotExist => "file does not exist"
  | ErrMsg m => m
  end.

(** [fmt.Errorf(prefix + "%w", err)]. *)
Definition Errorf (prefix : string) (e : error_value) : error_value :=
  ErrMsg (prefix +:+ error_message e).

Definition os_IsNotExist (e : error_value) : bool :=
  match e with
  | ErrNotExist => true
  | ErrMsg _ => false
  end.

(** [time.Time]: seconds and nanoseconds since January 1, year 1 UTC, and
    the offset of its location east of UTC, in seconds. *)
Record Time := { sec : Z; nsec : Z; zone_offset : Z }.

(** [Time.IsZero]: the instant is January 1, year 1, 00:00:00 UTC. *)
Definition IsZero (t : Time) : bool := (sec t =? 0)%Z && (nsec t =? 0)%Z.

(** [Time.UTC]: the same instant, location UTC. *)
Definition UTC (t : Time) : Time := {| sec := sec t; nsec := nsec t; zone_offset := 0 |}.

(** [time.RFC3339]. *)
Definition time_RFC3339 : string := "2006-01-02T15:04:05Z07:00".

(** The dynamic types an [interface{}] filled by [rows.Scan] can hold
    ([database/sql/driver.Value]), the unsigned integers some drivers
    return, and anything else. *)
Inductive value :=
| VNil
| VBytes (b : list byte)
| VTime (t : Time)
| VInt64 (n : Z)
| VUint64 (n : Z)
| VFloat64 (bits : Z)
| VBool (b : bool)
| VString (s : string)
| VOther (type_name : string) (repr : list byte).

(** ** The backup state (lines 25-38) *)

Record CountsT := {
  Issues : Z;
  Events : Z;
  Comments : Z;
  Dependencies : Z;
  Labels : Z;
  Config : Z
}.

Record backupState := {
  LastDoltCommit : string;
  LastEventID : Z;
  Timestamp : Time;
  Counts : CountsT
}.

(** [&backupState{}]. *)
Definition zero_state : backupState :=
  {| LastDoltCommit := "";
     LastEventID := 0;
     Timestamp := {| sec := 0; nsec := 0; zone_offset := 0 |};
     Counts := {| Issues := 0; Events := 0; Comments := 0;
                  Dependencies := 0; Labels := 0; Config := 0 |} |}.

Definition set_LastDoltCommit (c : string) (s : backupState) : backupState :=
  {| LastDoltCommit := c; LastEventID := LastEventID s;
     Timestamp := Timestamp s; Counts := Counts s |}.

Definition set_LastEventID (n : Z) (s : backupState) : backupState :=
  {| LastDoltCommit := LastDoltCommit s; LastEventID := n;
     Timestamp := Timestamp s; Counts := Counts s |}.

Definition set_Timestamp (t : Time) (s : backupState) : backupState :=
  {| LastDoltCommit := LastDoltCommit s; LastEventID := LastEventID s;
     Timestamp := t; Counts := Counts s |}.

Definition set_Counts (c : CountsT) (s : backupState) : backupState :=
  {| LastDoltCommit := LastDoltCommit s; LastEventID := LastEventID s;
     Timestamp := Timestamp s; Counts := c |}.

Definition set_Issues (n : Z) (c : CountsT) : CountsT :=
  {| Issues := n; Events := Events c; Comments := Comments c;
     Dependencies := Dependencies c; Labels := Labels c; Config := Config c |}.

Definition set_Events (n : Z) (c : CountsT) : CountsT :=
  {| Issues := Issues c; Events := n; Comments := Comments c;
     Dependencies := Dependencies c; Labels := Labels c; Config := Config c |}.

Definition set_Comments (n : Z) (c : CountsT) : CountsT :=
  {| Issues := Issues c; Events := Events c; Comments := n;
     Dependencies := Dependencies c; Labels := Labels c; Config := Config c |}.

Definition set_Dependencies (n : Z) (c : CountsT) : CountsT :=
  {| Issues := Issues c; Events := Events c; Comments := Comments c;
     Dependencies := n; Labels := Labels c; Config := Config c |}.

Definition set_Labels (n : Z) (c : CountsT) : CountsT :=
  {| Issues := Issues c; Events := Events c; Comments := Comments c;
     Dependencies := Dependencies c; Labels := n; Config := Config c |}.

Definition set_Config (n : Z) (c : CountsT) : CountsT :=
  {| Issues := Issues c; Events := Events c; Comments := Comments c;
     Dependencies := Dependencies c; Labels := Labels c; Config := n |}.

(** Go's [int] is 64 bits wide here; [+=] wraps around. *)
Definition wrap_int (z : Z) : Z := ((z + 2 ^ 63) mod 2 ^ 64 - 2 ^ 63)%Z.

(** ** Result sets

    A [*sql.Rows]: what [Columns] returns, what each [Next]/[Scan] round
    yields until [Next] returns false, and what [Err] reports then. *)
Inductive RowStep :=
| ScanOk (vals : list value)
| ScanErr (e : error_value).

Record Rows := {
  rows_Columns : Result (list string);
  rows_steps : list RowStep;
  rows_Err : error
}.

(** ** Paths

    Paths are taken to be clean already: [filepath.Join] then only puts a
    separator between its arguments and [filepath.Dir] drops the last
    element. *)
Definition filepath_Join (dir name : string) : string := dir +:+ "/" +:+ name.

Fixpoint has_separator (s : string) : bool :=
  match s with
  | EmptyString => false
  | String c r => Ascii.eqb c "/" || has_separator r
  end.

Fixpoint filepath_Dir (path : string) : string :=
  match path with
  | EmptyString => EmptyString
  | String c r => if has_separator r then String c (filepath_Dir r) else EmptyString
  end.

(** [strings.HasPrefix(s, "~/")] and [s[2:]]. *)
Definition has_home_prefix (s : string) : bool := String.prefix "~/" s.
Definition drop2 (s : string) : string := substring 2 (String.length s - 2) s.

(** The pattern of [os.CreateTemp]: the random string replaces the last
    ["*"], or is appended when there is none. *)
Fixpoint split_last_star (s : string) : option (string * string) :=
  match s with
  | EmptyString => None
  | String c r =>
      match split_last_star r with
      | Some (p, q) => Some (String c p, q)
      | None => if Ascii.eqb c "*" then Some (EmptyString, r) else None
      end
  end.

Definition temp_name (pattern random : string) : string :=
  match split_last_star pattern with
  | Some (p, q) => p +:+ random +:+ q
  | None => pattern +:+ random
  end.

(** ** The world: files and the trace of calls made so far *)

Inductive Event :=
| EvStat (path : string)
| EvMkdirAll (path : string)
| EvReadFile (path : string)
| EvCreateTemp (path : string)
| EvOpenFile (path : string)
| EvWrite (path : string) (written : list byte)
| EvSync (path : string)
| EvClose (path : string)
| EvRename (oldpath newpath : string)
| EvRemove (path : string)
| EvGetCurrentCommit
| EvQuery (query : string) (args : list value)
| EvNow.

Record World := {
  files : gmap string (list byte);
  trace : list Event
}.

(** The instant of the next call. *)
Definition now (w : World) : nat := length (trace w).

Definition emit (e : Event) (w : World) : World :=
  {| files := files w; trace := trace w ++ [e] |}.

Definition with_files (f : gmap string (list byte)) (w : World) : World :=
  {| files := f; trace := trace w |}.

(** The environment. *)
Record Env := {
  (* encoding/json and time *)
  json_Marshal : gmap string value -> Result (list byte);
  json_MarshalIndent : backupState -> Result (list byte);
  json_Unmarshal : list byte -> Result backupState;
  time_Format : string -> Time -> string;
  (* configuration and directory discovery *)
  config_GetString : string -> string;
  os_UserHomeDir : string;
  beads_FindBeadsDir : string;
  (* the store, by instant *)
  store_commit : nat -> Result string;
  store_query : nat -> string -> list value -> Result Rows;
  (* the operating system, by instant: the failure of the call made then,
     how many bytes a failing write still stores, the random part of a
     temp name, the clock *)
  os_fault : nat -> option string;
  os_short : nat -> nat;
  os_random : nat -> string;
  time_now : nat -> Time
}.

(** ** The monad of the code: state passing over [World] *)

Definition M (A : Type) : Type := World -> A * World.

Definition ret {A} (a : A) : M A := fun w => (a, w).

Definition bind {A B} (m : M A) (k : A -> M B) : M B :=
  fun w => let (a, w') := m w in k a w'.

Notation "x <- m ;; k" := (bind m (fun x => k))
  (at level 100, m at next level, right associativity).

Definition fault_error (o : option string) : error :=
  match o with
  | Some m => Some (ErrMsg m)
  | None => None
  end.

Section Model.

Variable E : Env.

(** *** Calls into the operating system and the store *)

Definition os_Stat (path : string) : M error :=
  fun w => (fault_error (os_fault E (now w)), emit (EvStat path) w).

Definition os_MkdirAll (path : string) : M error :=
  fun w => (fault_error (os_fault E (now w)), emit (EvMkdirAll path) w).

(** A missing file is [ErrNotExist]; a present one may still fail to be
    read. *)
Definition os_ReadFile (path : string) : M (Result (list byte)) :=
  fun w =>
    (match files w !! path with
     | None => Err ErrNotExist
     | Some data =>
         match os_fault E (now w) with
         | Some m => Err (ErrMsg m)
         | None => Ok data
         end
     end, emit (EvReadFile path) w).

(** [os.CreateTemp]: a new, empty file that did not exist before. *)
Definition os_CreateTemp (dir pattern : string) : M (Result string) :=
  fun w =>
    let name := filepath_Join dir (temp_name pattern (os_random E (now w))) in
    match os_fault E (now w) with
    | Some m => (Err (ErrMsg m), emit (EvCreateTemp name) w)
    | None =>
        match files w !! name with
        | Some _ => (Err (ErrMsg "file exists"), emit (EvCreateTemp name) w)
        | None => (Ok name, emit (EvCreateTemp name) (with_files (<[name := []]> (files w)) w))
        end
    end.

(** [os.OpenFile(path, O_APPEND|O_CREATE|O_WRONLY, 0600)]. *)
Definition os_OpenFile_append (path : string) : M (Result string) :=
  fun w =>
    match os_fault E (now w) with
    | Some m => (Err (ErrMsg m), emit (EvOpenFile path) w)
    | None =>
        let f := match files w !! path with
                 | Some _ => files w
                 | None => <[path := []]> (files w)
                 end in
        (Ok path, emit (EvOpenFile path) (with_files f w))
    end.

(** [f.Write(data)] on a file opened by one of the two calls above: the
    bytes go after the content; a failing write may still store a prefix. *)
Definition file_Write (path : string) (data : list byte) : M error :=
  fun w =>
    let stored := match os_fault E (now w) with
                  | Some _ => take (os_short E (now w)) data
                  | None => data
                  end in
    (fault_error (os_fault E (now w)),
     emit (EvWrite path stored)
       (with_files (alter (fun old => old ++ stored) path (files w)) w)).

Definition file_Sync (path : string) : M error :=
  fun w => (fault_error (os_fault E (now w)), emit (EvSync path) w).

Definition file_Close (path : string) : M error :=
  fun w => (fault_error (os_fault E (now w)), emit (EvClose path) w).

Definition os_Rename (oldpath newpath : string) : M error :=
  fun w =>
    match os_fault E (now w) with
    | Some m => (Some (ErrMsg m), emit (EvRename oldpath newpath) w)
    | None =>
        match files w !! oldpath with
        | None => (Some ErrNotExist, emit (EvRename oldpath newpath) w)
        | Some data =>
            (None, emit (EvRename oldpath newpath)
                     (with_files (<[newpath := data]> (delete oldpath (files w))) w))
        end
    end.

Definition os_Remove (path : string) : M error :=
  fun w =>
    match os_fault E (now w) with
    | Some m => (Some (ErrMsg m), emit (EvRemove path) w)
    | None => (None, emit (EvRemove path) (with_files (delete path (files w)) w))
    end.

Definition store_GetCurrentCommit : M (Result string) :=
  fun w => (store_commit E (now w), emit EvGetCurrentCommit w).

Definition QueryContext (query : string) (args : list value) : M (Result Rows) :=
  fun w => (store_query E (now w) query args, emit (EvQuery query args) w).

Definition time_Now : M Time :=
  fun w => (time_now E (now w), emit EvNow w).

(** *** [backupDir] (lines 40-69) *)

Definition backupDir : M (Result string) :=
  let fallback : M (Result string) :=
    let beadsDir := beads_FindBeadsDir E in
    let beadsDir := if String.eqb beadsDir "" then ".beads" else beadsDir in
    let dir := filepath_Join beadsDir "backup" in
    err <- os_MkdirAll dir ;;
    match err with
    | Some e => ret (Err (Errorf "failed to create backup directory: " e))
    | None => ret (Ok dir)
    end in
  let gitRepo := config_GetString E "backup.git-repo" in
  if negb (String.eqb gitRepo "") then
    let gitRepo :=
      if has_home_prefix gitRepo
      then filepath_Join (os_UserHomeDir E) (drop2 gitRepo)
      else gitRepo in
    err <- os_Stat (filepath_Join gitRepo ".git") ;;
    match err with
    | Some _ => fallback
    | None =>
        let dir := filepath_Join gitRepo "backup" in
        err <- os_MkdirAll dir ;;
        match err with
        | Some e => ret (Err (Errorf "failed to create backup dir in git-repo: " e))
        | None => ret (Ok dir)
        end
    end
  else fallback.

(** *** [loadBackupState] (lines 71-86) *)

Definition state_path (dir : string) : string := filepath_Join dir "backup_state.json".

Definition loadBackupState (dir : string) : M (Result backupState) :=
  let path := state_path dir in
  r <- os_ReadFile path ;;
  match r with
  | Err e =>
      if os_IsNotExist e then ret (Ok zero_state)
      else ret (Err (Errorf "failed to read backup state: " e))
  | Ok data =>
      match json_Unmarshal E data with
      | Err e => ret (Err (Errorf "failed to parse backup state: " e))
      | Ok state => ret (Ok state)
      end
  end.

(** *** [atomicWriteFile] (lines 97-125) *)

Definition atomicWriteFile (path : string) (data : list byte) : M error :=
  let dir := filepath_Dir path in
  r <- os_CreateTemp dir ".backup-tmp-*" ;;
  match r with
  | Err e => ret (Some (Errorf "failed to create temp file: " e))
  | Ok tmpPath =>
      err <- file_Write tmpPath data ;;
      match err with
      | Some e =>
          _ <- file_Close tmpPath ;;
          _ <- os_Remove tmpPath ;;
          ret (Some (Errorf "failed to write temp file: " e))
      | None =>
          err <- file_Sync tmpPath ;;
          match err with
          | Some e =>
              _ <- file_Close tmpPath ;;
              _ <- os_Remove tmpPath ;;
              ret (Some (Errorf "failed to sync temp file: " e))
          | None =>
              err <- file_Close tmpPath ;;
              match err with
              | Some e =>
                  _ <- os_Remove tmpPath ;;
                  ret (Some (Errorf "failed to close temp file: " e))
              | None =>
                  err <- os_Rename tmpPath path ;;
                  match err with
                  | Some e =>
                      _ <- os_Remove tmpPath ;;
                      ret (Some (Errorf "failed to rename temp file: " e))
                  | None => ret None
                  end
              end
          end
      end
  end.

(** *** [saveBackupState] (lines 88-95) *)

Definition saveBackupState (dir : string) (state : backupState) : M error :=
  match json_MarshalIndent E state with
  | Err e => ret (Some (Errorf "failed to marshal backup state: " e))
  | Ok data => atomicWriteFile (state_path dir) data
  end.

(** *** [normalizeValue] (lines 395-410) *)

Definition normalizeValue (v : value) : value :=
  match v with
  | VBytes val => VString (string_of_list_byte val)
  | VTime val => if IsZero val then VNil else VString (time_Format E time_RFC3339 val)
  | VNil => VNil
  | val => val
  end.

(** *** [tableExistsCheck] (lines 234-242) *)

(** The first [rows.Next()]. *)
Definition rows_Next (rows : Rows) : bool :=
  match rows_steps rows with
  | [] => false
  | _ :: _ => true
  end.

Definition tableExistsQuery : string :=
  "SELECT TABLE_NAME FROM information_schema.tables WHERE TABLE_NAME = ?".

Definition tableExistsCheck (table : string) : M bool :=
  r <- QueryContext tableExistsQuery [VString table] ;;
  match r with
  | Err _ => ret false
  | Ok rows => ret (rows_Next rows)
  end.

(** *** [truncateHash] (lines 244-250) *)

Definition truncateHash (h : string) : string :=
  if (8 <? String.length h)%nat then substring 0 8 h else h.

(** *** [exportTable] (lines 252-299) *)

(** [values] has one slot per column, [nil] until [Scan] fills it; the row
    is the Go map built by [row[col] = normalizeValue(values[i])]. *)
Fixpoint build_row (cols : list string) (values : list value)
    (row : gmap string value) : gmap string value :=
  match cols with
  | [] => row
  | col :: cols' =>
      build_row cols' (tail values) (<[col := normalizeValue (hd VNil values)]> row)
  end.

Definition newline : byte := x0a.

(** The loop [for rows.Next()]: [count] never wraps, since [lines] holds
    at least [count] bytes and a slice is no longer than [int] allows. *)
Fixpoint exportTable_loop (cols : list string) (steps : list RowStep)
    (lines : list byte) (count : Z) : Result (list byte * Z) :=
  match steps with
  | [] => Ok (lines, count)
  | ScanErr e :: _ => Err (Errorf "scan failed: " e)
  | ScanOk values :: rest =>
      let row := build_row cols values ∅ in
      match json_Marshal E row with
      | Err e => Err (Errorf "marshal failed: " e)
      | Ok data => exportTable_loop cols rest ((lines ++ data) ++ [newline]) (count + 1)%Z
      end
  end.

Definition exportTable (dir filename query : string) : M (Z * error) :=
  r <- QueryContext query [] ;;
  match r with
  | Err e => ret (0%Z, Some (Errorf "query failed: " e))
  | Ok rows =>
      match rows_Columns rows with
      | Err e => ret (0%Z, Some (Errorf "failed to get columns: " e))
      | Ok cols =>
          match exportTable_loop cols (rows_steps rows) [] 0 with
          | Err e => ret (0%Z, Some e)
          | Ok (lines, count) =>
              match rows_Err rows with
              | Some e => ret (0%Z, Some (Errorf "row iteration failed: " e))
              | None =>
                  err <- atomicWriteFile (filepath_Join dir filename) lines ;;
                  ret (count, err)
              end
          end
      end
  end.

(** *** [exportEventsIncremental] (lines 301-393) *)

Definition eventsQuery (hasWisps : bool) : string :=
  if hasWisps then
    "SELECT id, issue_id, event_type, actor, old_value, new_value, comment, created_at " +:+
    "FROM events WHERE id > ? " +:+
    "UNION ALL " +:+
    "SELECT id, issue_id, event_type, actor, old_value, new_value, comment, created_at " +:+
    "FROM wisp_events WHERE id > ? " +:+
    "ORDER BY id ASC"
  else
    "SELECT id, issue_id, event_type, actor, old_value, new_value, comment, created_at " +:+
    "FROM events WHERE id > ? ORDER BY id ASC".

Definition eventsArgs (hasWisps : bool) (state : backupState) : list value :=
  if hasWisps then [VInt64 (LastEventID state); VInt64 (LastEventID state)]
  else [VInt64 (LastEventID state)].

(** [if id, ok := row["id"].(int64); ok && id > maxID { maxID = id }]. *)
Definition track_maxID (row : gmap string value) (maxID : Z) : Z :=
  match row !! "id" with
  | Some (VInt64 id) => if (maxID <? id)%Z then id else maxID
  | _ => maxID
  end.

Fixpoint exportEvents_loop (cols : list string) (steps : list RowStep)
    (newLines : list byte) (count maxID : Z) : Result (list byte * Z * Z) :=
  match steps with
  | [] => Ok (newLines, count, maxID)
  | ScanErr e :: _ => Err (Errorf "scan failed: " e)
  | ScanOk values :: rest =>
      let row := build_row cols values ∅ in
      let maxID := track_maxID row maxID in
      match json_Marshal E row with
      | Err e => Err (Errorf "marshal failed: " e)
      | Ok data =>
          exportEvents_loop cols rest ((newLines ++ data) ++ [newline]) (count + 1)%Z maxID
      end
  end.

Definition events_path (dir : string) : string := filepath_Join dir "events.jsonl".

(** The state is passed by pointer in the source; the function here returns
    it next to the count and the error. *)
Definition exportEventsIncremental (dir : string) (state : backupState) (hasWisps : bool)
    : M (Z * error * backupState) :=
  let query := eventsQuery hasWisps in
  let args := eventsArgs hasWisps state in
  r <- QueryContext query args ;;
  match r with
  | Err e => ret (0%Z, Some (Errorf "query failed: " e), state)
  | Ok rows =>
  match rows_Columns rows with
  | Err e => ret (0%Z, Some (Errorf "failed to get columns: " e), state)
  | Ok cols =>
  match exportEvents_loop cols (rows_steps rows) [] 0 0 with
  | Err e => ret (0%Z, Some e, state)
  | Ok (newLines, count, maxID) =>
  match rows_Err rows with
  | Some e => ret (0%Z, Some (Errorf "row iteration failed: " e), state)
  | None =>
  if (count =? 0)%Z then ret (0%Z, None, state)
  else
    let eventsPath := events_path dir in
    let finish : M (Z * error * backupState) :=
      ret (count, None, set_LastEventID maxID state) in
    if (LastEventID state =? 0)%Z then
      err <- atomicWriteFile eventsPath newLines ;;
      match err with
      | Some e => ret (0%Z, Some e, state)
      | None => finish
      end
    else
      r <- os_OpenFile_append eventsPath ;;
      match r with
      | Err e => ret (0%Z, Some (Errorf "failed to open events file: " e), state)
      | Ok f =>
          err <- file_Write f newLines ;;
          match err with
          | Some e =>
              _ <- file_Close f ;;
              ret (0%Z, Some (Errorf "failed to append events: " e), state)
          | None =>
              err <- file_Close f ;;
              match err with
              | Some e => ret (0%Z, Some (Errorf "failed to close events file: " e), state)
              | None => finish
              end
          end
      end
  end end end end.

(** *** [runBackupExport] (lines 127-232) *)

Definition issuesQuery (hasWisps : bool) : string :=
  if hasWisps then "SELECT * FROM issues UNION ALL SELECT * FROM wisps ORDER BY id"
  else "SELECT * FROM issues ORDER BY id".

Definition commentsQuery (hasWisps : bool) : string :=
  if hasWisps then
    "SELECT id, issue_id, author, text, created_at FROM comments " +:+
    "UNION ALL " +:+
    "SELECT id, issue_id, author, text, created_at FROM wisp_comments " +:+
    "ORDER BY id"
  else "SELECT id, issue_id, author, text, created_at FROM comments ORDER BY id".

Definition depsQuery (hasWisps : bool) : string :=
  if hasWisps then
    "SELECT issue_id, depends_on_id, type, created_at, created_by FROM dependencies " +:+
    "UNION ALL " +:+
    "SELECT issue_id, depends_on_id, type, created_at, created_by FROM wisp_dependencies " +:+
    "ORDER BY issue_id, depends_on_id"
  else
    "SELECT issue_id, depends_on_id, type, created_at, created_by FROM dependencies ORDER BY issue_id, depends_on_id".

Definition labelsQuery (hasWisps : bool) : string :=
  if hasWisps then
    "SELECT issue_id, label FROM labels " +:+
    "UNION ALL " +:+
    "SELECT issue_id, label FROM wisp_labels " +:+
    "ORDER BY issue_id, label"
  else "SELECT issue_id, label FROM labels ORDER BY issue_id, label".

Definition configQuery : string := "SELECT `key`, value FROM config ORDER BY `key`".

(** The change detection of lines 140-150: [Some r] when the function
    returns [r] from inside the block, [None] when control leaves it. *)
Definition change_detection (force : bool) (state : backupState)
    : M (option (Result backupState)) :=
  if negb force then
    r <- store_GetCurrentCommit ;;
    match r with
    | Err e => ret (Some (Err (Errorf "failed to get current commit: " e)))
    | Ok currentCommit =>
        if String.eqb currentCommit (LastDoltCommit state)
           && negb (String.eqb (LastDoltCommit state) "")
        then ret (Some (Ok state))
        else ret None
    end
  else ret None.

Definition runBackupExport (force : bool) : M (Result backupState) :=
  r <- backupDir ;;
  match r with
  | Err e => ret (Err e)
  | Ok dir =>
  r <- loadBackupState dir ;;
  match r with
  | Err e => ret (Err e)
  | Ok state =>
  stop <- change_detection force state ;;
  match stop with
  | Some r => ret r
  | None =>
  hasWisps <- tableExistsCheck "wisps" ;;
  r <- exportTable dir "issues.jsonl" (issuesQuery hasWisps) ;;
  match r with
  | (_, Some e) => ret (Err (Errorf "backup issues: " e))
  | (n, None) =>
  let state := set_Counts (set_Issues n (Counts state)) state in
  r <- exportEventsIncremental dir state hasWisps ;;
  match r with
  | (_, Some e, _) => ret (Err (Errorf "backup events: " e))
  | (n, None, state) =>
  let state := set_Counts (set_Events (wrap_int (Events (Counts state) + n)) (Counts state)) state in
  r <- exportTable dir "comments.jsonl" (commentsQuery hasWisps) ;;
  match r with
  | (_, Some e) => ret (Err (Errorf "backup comments: " e))
  | (n, None) =>
  let state := set_Counts (set_Comments n (Counts state)) state in
  r <- exportTable dir "dependencies.jsonl" (depsQuery hasWisps) ;;
  match r with
  | (_, Some e) => ret (Err (Errorf "backup dependencies: " e))
  | (n, None) =>
  let state := set_Counts (set_Dependencies n (Counts state)) state in
  r <- exportTable dir "labels.jsonl" (labelsQuery hasWisps) ;;
  match r with
  | (_, Some e) => ret (Err (Errorf "backup labels: " e))
  | (n, None) =>
  let state := set_Counts (set_Labels n (Counts state)) state in
  r <- exportTable dir "config.jsonl" configQuery ;;
  match r with
  | (_, Some e) => ret (Err (Errorf "backup config: " e))
  | (n, None) =>
  let state := set_Counts (set_Config n (Counts state)) state in
  r <- store_GetCurrentCommit ;;
  match r with
  | Err e => ret (Err (Errorf "failed to get current commit for state: " e))
  | Ok currentCommit =>
  let state := set_LastDoltCommit currentCommit state in
  t <- time_Now ;;
  let state := set_Timestamp (UTC t) state in
  err <- saveBackupState dir state ;;
  match err with
  | Some e => ret (Err e)
  | None => ret (Ok state)
  end end end end end end end end end end end.

End Model.

(** ** Reading the trace *)

(** The files an operating-system call names. *)
Definition event_files (e : Event) : list string :=
  match e with
  | EvCreateTemp p | EvOpenFile p | EvWrite p _ | EvSync p | EvClose p | EvRemove p => [p]
  | EvRename a b => [a; b]
  | _ => []
  end.

(** Calls that create, change, replace or delete a file. *)
Definition is_file_write (e : Event) : bool :=
  match e with
  | EvCreateTemp _ | EvOpenFile _ | EvWrite _ _ | EvRename _ _ | EvRemove _ => true
  | _ => false
  end.

(** Calls that create, open, change, replace or delete the file [p]. *)
Definition writes_to (p : string) (e : Event) : bool :=
  is_file_write e && existsb (String.eqb p) (event_files e).

Definition is_query (e : Event) : bool :=
  match e with
  | EvQuery _ _ => true
  | _ => false
  end.

(** The statements sent to the store, in order. *)
Fixpoint queries (l : list Event) : list string :=
  match l with
  | [] => []
  | EvQuery q _ :: l' => q :: queries l'
  | _ :: l' => queries l'
  end.

(** The persisted state a run starts from: what [loadBackupState] makes of
    the files when the read itself does not fail. *)
Definition stored_state (E : Env) (dir : string) (f : gmap string (list byte))
    : Result backupState :=
  match f !! state_path dir with
  | None => Ok zero_state
  | Some data => json_Unmarshal E data
  end.

(** What a successful [exportTable] loop leaves in [lines]. *)
Definition row_line (E : Env) (cols : list string) (step : RowStep) : list byte :=
  match step with
  | ScanOk values =>
      match json_Marshal E (build_row E cols values ∅) with
      | Ok data => data ++ [newline]
      | Err _ => []
      end
  | ScanErr _ => []
  end.

Definition rows_lines (E : Env) (cols : list string) (steps : list RowStep) : list byte :=
  flat_map (row_line E cols) steps.

(** A row that scans and serializes. *)
Definition row_ok (E : Env) (cols : list string) (step : RowStep) : bool :=
  match step with
  | ScanOk values =>
      match json_Marshal E (build_row E cols values ∅) with
      | Ok _ => true
      | Err _ => false
      end
  | ScanErr _ => false
  end.

(** The [int64] key of a scanned row, as [row["id"].(int64)] sees it. *)
Definition row_id (E : Env) (cols : list string) (step : RowStep) : option Z :=
  match step with
  | ScanOk values =>
      match build_row E cols values ∅ !! "id" with
      | Some (VInt64 id) => Some id
      | _ => None
      end
  | ScanErr _ => None
  end.

(** ** The entities of a run, in the order of the source

    [runBackupExport] is straight-line code: six export calls, each
    followed by an early return on error and an update of one count.  The
    definitions below name these six steps so that statements can speak of
    "the exports done so far"; [runBackupExport_inv] ties them to the code. *)

Inductive entity := issues | events | comments | dependencies | labels | config.

(** The order of the calls in lines 160-217. *)
Definition run_order : list entity :=
  [issues; events; comments; dependencies; labels; config].

Definition entity_file (ent : entity) : string :=
  match ent with
  | issues => "issues.jsonl"
  | events => "events.jsonl"
  | comments => "comments.jsonl"
  | dependencies => "dependencies.jsonl"
  | labels => "labels.jsonl"
  | config => "config.jsonl"
  end.

Definition entity_query (hasWisps : bool) (ent : entity) : string :=
  match ent with
  | issues => issuesQuery hasWisps
  | events => eventsQuery hasWisps
  | comments => commentsQuery hasWisps
  | dependencies => depsQuery hasWisps
  | labels => labelsQuery hasWisps
  | config => configQuery
  end.

(** The context [runBackupExport] puts before the error of a step. *)
Definition entity_context (ent : entity) : string :=
  match ent with
  | issues => "backup issues: "
  | events => "backup events: "
  | comments => "backup comments: "
  | dependencies => "backup dependencies: "
  | labels => "backup labels: "
  | config => "backup config: "
  end.

(** The update of the count that follows a step returning [n]. *)
Definition count_update (ent : entity) (n : Z) (st : backupState) : backupState :=
  match ent with
  | issues => set_Counts (set_Issues n (Counts st)) st
  | events => set_Counts (set_Events (wrap_int (Events (Counts st) + n)) (Counts st)) st
  | comments => set_Counts (set_Comments n (Counts st)) st
  | dependencies => set_Counts (set_Dependencies n (Counts st)) st
  | labels => set_Counts (set_Labels n (Counts st)) st
  | config => set_Counts (set_Config n (Counts st)) st
  end.

(** One step: the export call and the update of the count. *)
Definition export_entity (E : Env) (dir : string) (hasWisps : bool) (ent : entity)
    (st : backupState) : M (Z * error * backupState) :=
  match ent with
  | events =>
      r <- exportEventsIncremental E dir st hasWisps ;;
      ret (r.1.1, r.1.2, count_update events r.1.1 r.2)
  | _ =>
      r <- exportTable E dir (entity_file ent) (entity_query hasWisps ent) ;;
      ret (r.1, r.2, count_update ent r.1 st)
  end.

(** [exported E dir hw ents st w st' w']: the steps of [ents], run one after
    the other from state [st] in world [w], all returned a nil error and
    left state [st'] and world [w']. *)
Inductive exported (E : Env) (dir : string) (hw : bool)
    : list entity -> backupState -> World -> backupState -> World -> Prop :=
| exported_nil st w : exported E dir hw [] st w st w
| exported_cons ent ents st w n st1 w1 st2 w2 :
    export_entity E dir hw ent st w = ((n, None, st1), w1) ->
    exported E dir hw ents st1 w1 st2 w2 ->
    exported E dir hw (ent :: ents) st w st2 w2.

(** How a run that got past the shadow-table probe ends: a step fails, the
    second revision query fails, or the state is saved. *)
Inductive run_exports (E : Env) (dir : string) (hw : bool) (state : backupState) (w : World)
    : Result backupState -> World -> Prop :=
| exports_failed done ent rest st_k w_k n e st_x w' :
    run_order = done ++ ent :: rest ->
    exported E dir hw done state w st_k w_k ->
    export_entity E dir hw ent st_k w_k = ((n, Some e, st_x), w') ->
    run_exports E dir hw state w (Err (Errorf (entity_context ent) e)) w'
| commit_failed st6 w6 e w' :
    exported E dir hw run_order state w st6 w6 ->
    store_GetCurrentCommit E w6 = (Err e, w') ->
    run_exports E dir hw state w
      (Err (Errorf "failed to get current commit for state: " e)) w'
| save_attempted st6 w6 c w7 t w8 err w' :
    exported E dir hw run_order state w st6 w6 ->
    store_GetCurrentCommit E w6 = (Ok c, w7) ->
    time_Now E w7 = (t, w8) ->
    saveBackupState E dir (set_Timestamp (UTC t) (set_LastDoltCommit c st6)) w8 = (err, w') ->
    run_exports E dir hw state w
      (match err with
       | Some e => Err e
       | None => Ok (set_Timestamp (UTC t) (set_LastDoltCommit c st6))
       end) w'.

(** ** Sequences of runs and the watermark *)





(** The ordering keys observed among rows. *)
Definition observed_ids (E : Env) (cols : list string) (steps : list RowStep) : list Z :=
  omap (row_id E cols) steps.

(** [json.Unmarshal] reads back what [json.MarshalIndent] wrote. *)
Definition json_round_trip (E : Env) : Prop :=
  forall st data, json_MarshalIndent E st = Ok data -> json_Unmarshal E data = Ok st.


(** ** Merging a shadow table *)

(** The key of a row whose first column is an [int64] id. *)
Definition first_id (row : list value) : Z :=
  match row with
  | VInt64 id :: _ => id
  | _ => 0%Z
  end.

(** What [SELECT ... UNION ALL SELECT ... ORDER BY id] asks of the store:
    every row of both tables, ascending by key.  The statement says nothing
    about the order of rows with equal keys. *)
Definition answers_union (key : list value -> Z) (primary shadow : list (list value))
    (rows : Rows) : Prop :=
  rows_Err rows = None
  /\ exists result,
      rows_steps rows = map ScanOk result
      /\ Permutation result (primary ++ shadow)
      /\ Sorted (fun a b => (key a <= key b)%Z) result.

(** The order the claim C8 gives: the stable ascending merge of the two
    row lists, the primary row first among equal keys. *)
Fixpoint stable_merge (key : list value -> Z) (primary shadow : list (list value))
    : list (list value) :=
  let fix merge_shadow (shadow : list (list value)) : list (list value) :=
    match primary, shadow with
    | [], _ => shadow
    | _, [] => primary
    | p :: ps, s :: ss =>
        if (key p <=? key s)%Z then p :: stable_merge key ps shadow
        else s :: merge_shadow ss
    end in
  merge_shadow shadow.

(** C8 as it is stated, for one export: whenever the store answers the
    merged query as the statement asks, the file written lists the rows in
    the order of the stable merge. *)
Definition primary_first_on_ties (E : Env) (dir filename query : string) (w : World)
    (key : list value -> Z) (primary shadow : list (list value)) : Prop :=
  forall rows cols n w',
    store_query E (now w) query [] = Ok rows ->
    rows_Columns rows = Ok cols ->
    answers_union key primary shadow rows ->
    exportTable E dir filename query w = ((n, None), w') ->
    files w' !! filepath_Join dir filename
    = Some (rows_lines E cols (map ScanOk (stable_merge key primary shadow))).

(** ** Notions used in the statements *)

(** A name that does not start with a dot is no temp name. *)
Definition plain_name (name : string) : bool :=
  match name with
  | EmptyString => true
  | String c _ => negb (Ascii.eqb c ".")
  end.

(** The temp file [atomicWriteFile path] creates when called in [w]. *)
Definition temp_path (E : Env) (path : string) (w : World) : string :=
  filepath_Join (filepath_Dir path) (temp_name ".backup-tmp-*" (os_random E (now w))).

(** The calls [atomicWriteFile path] can make, [tmp] being its temp file. *)
Definition atomic_event (tmp path : string) (e : Event) : bool :=
  match e with
  | EvCreateTemp p | EvWrite p _ | EvSync p | EvClose p | EvRemove p => String.eqb p tmp
  | EvRename a b => String.eqb a tmp && String.eqb b path
  | _ => false
  end.

Definition is_rename (e : Event) : bool :=
  match e with
  | EvRename _ _ => true
  | _ => false
  end.

Definition no_error (err : error) : bool :=
  match err with
  | None => true
  | Some _ => false
  end.

(** The high-water mark the loop tracks: the largest [int64] id seen, and
    [m] when none is larger. *)
Definition max_id (E : Env) (cols : list string) (steps : list RowStep) (m : Z) : Z :=
  fold_left (fun m step =>
               match row_id E cols step with
               | Some id => Z.max m id
               | None => m
               end) steps m.

(** A call on files, naming only files among [ps]. *)
Definition touches_only (ps : list string) (e : Event) : bool :=
  match e with
  | EvCreateTemp _ | EvOpenFile _ | EvWrite _ _ | EvSync _ | EvClose _
  | EvRemove _ | EvRename _ _ =>
      forallb (fun p => existsb (String.eqb p) ps) (event_files e)
  | _ => false
  end.

(** [exportEventsIncremental] sends its query and then only names its temp
    file and the events file; it changes the state only when it returns no
    error and has exported rows, and then only [LastEventID], which becomes
    the high-water mark of the rows. *)
Definition events_post (E : Env) (dir : string) (st : backupState) (hw : bool)
    (w : World) (n : Z) (err : error) (st' : backupState) (w' : World) : Prop :=
  let path := events_path dir in
  let w1 := emit (EvQuery (eventsQuery hw) (eventsArgs hw st)) w in
  let tmp := temp_path E path w1 in
  exists l,
    trace w' = trace w ++ EvQuery (eventsQuery hw) (eventsArgs hw st) :: l
    /\ forallb (touches_only [tmp; path]) l = true
    /\ (forall p, p <> path -> p <> tmp -> files w' !! p = files w !! p)
    /\ (err <> None -> st' = st)
    /\ (err = None ->
        exists rows cols,
          store_query E (now w) (eventsQuery hw) (eventsArgs hw st) = Ok rows
          /\ rows_Columns rows = Ok cols
          /\ forallb (row_ok E cols) (rows_steps rows) = true
          /\ n = Z.of_nat (length (rows_steps rows))
          /\ st' = (if (n =? 0)%Z then st
                    else set_LastEventID (max_id E cols (rows_steps rows) 0) st)
          /\ (n <> 0%Z ->
              files w' !! path
              = Some ((if (LastEventID st =? 0)%Z then []
                       else default [] (files w !! path))
                      ++ rows_lines E cols (rows_steps rows)))).

(** [untouched p w w']: from [w] to [w'] the file [p] kept its content and
    no call created, opened, wrote, replaced or removed it. *)
Definition untouched (p : string) (w w' : World) : Prop :=
  files w' !! p = files w !! p
  /\ exists l, trace w' = trace w ++ l /\ List.filter (writes_to p) l = [].

(** The arguments of the query of a step. *)
Definition entity_args (hw : bool) (ent : entity) (st : backupState) : list value :=
  match ent with
  | events => eventsArgs hw st
  | _ => []
  end.

(** [quiet w w']: from [w] to [w'] no file changed and no call changed a
    file or queried the store. *)
Definition quiet_event (e : Event) : bool := negb (is_file_write e) && negb (is_query e).

Definition quiet (w w' : World) : Prop :=
  files w' = files w
  /\ exists l, trace w' = trace w ++ l /\ forallb quiet_event l = true.

(** What C1 says of a run that used the directory [dir]. *)
Definition keeps_state (E : Env) (dir : string) (w : World)
    (r : Result backupState) (w' : World) : Prop :=
  let sp := state_path dir in
  exists l,
    trace w' = trace w ++ l
    /\ (forall e, r = Err e ->
        files w' !! sp = files w !! sp
        /\ stored_state E dir (files w') = stored_state E dir (files w))
    /\ (length (List.filter (writes_to sp) l) <= 1)%nat
    /\ (List.filter (writes_to sp) l <> [] ->
        exists state hw w4 st6 w6,
          exported E dir hw run_order state w4 st6 w6
          /\ untouched sp w w6
          /\ exists l', trace w' = trace w6 ++ l').

Definition extends (w w' : World) : Prop := exists l, trace w' = trace w ++ l.

(** The order the claim C7 gives: no full-snapshot statement is sent after
    the statement of the incremental stream. *)
Definition snapshot_queries (hw : bool) : list string :=
  [issuesQuery hw; commentsQuery hw; depsQuery hw; labelsQuery hw; configQuery].

Fixpoint snapshots_before_events (hw : bool) (qs : list string) : bool :=
  match qs with
  | [] => true
  | q :: rest =>
      if String.eqb q (eventsQuery hw)
      then forallb (fun q' => negb (existsb (String.eqb q') (snapshot_queries hw))) rest
      else snapshots_before_events hw rest
  end.

(** The directory [backupDir] falls back to. *)
Definition fallback_dir (E : Env) : string :=
  filepath_Join (if String.eqb (beads_FindBeadsDir E) "" then ".beads"
                 else beads_FindBeadsDir E) "backup".

(** The directory inside the configured git repository. *)
Definition git_repo_dir (E : Env) : string :=
  let gitRepo := config_GetString E "backup.git-repo" in
  filepath_Join (if has_home_prefix gitRepo
                 then filepath_Join (os_UserHomeDir E) (drop2 gitRepo)
                 else gitRepo) "backup".

(** The count [runBackupExport] keeps for an entity. *)
Definition entity_count (ent : entity) (c : CountsT) : Z :=
  match ent with
  | issues => Issues c
  | events => Events c
  | comments => Comments c
  | dependencies => Dependencies c
  | labels => Labels c
  | config => Config c
  end.

(** ** A concrete environment

    A small store, an operating system that never fails and stand-ins for
    the library functions, used to run the code on concrete inputs. *)

Module Demo.

#[local] Instance Time_eq_dec : EqDecision Time.
Proof. solve_decision. Defined.

#[local] Instance CountsT_eq_dec : EqDecision CountsT.
Proof. solve_decision. Defined.

#[local] Instance backupState_eq_dec : EqDecision backupState.
Proof. solve_decision. Defined.

Definition state_tuple (s : backupState) :=
  (LastDoltCommit s, LastEventID s,
   (sec (Timestamp s), nsec (Timestamp s), zone_offset (Timestamp s)),
   (Issues (Counts s), Events (Counts s), Comments (Counts s),
    Dependencies (Counts s), Labels (Counts s), Config (Counts s))).

Definition tuple_state (t : string * Z * (Z * Z * Z) * (Z * Z * Z * Z * Z * Z))
    : backupState :=
  match t with
  | (c, w, (s, n, z), (i, e, cm, d, l, cf)) =>
      {| LastDoltCommit := c; LastEventID := w;
         Timestamp := {| sec := s; nsec := n; zone_offset := z |};
         Counts := {| Issues := i; Events := e; Comments := cm;
                      Dependencies := d; Labels := l; Config := cf |} |}
  end.

#[local] Instance backupState_countable : Countable backupState.
Proof.
  apply (inj_countable' state_tuple tuple_state).
  intros [? ? [] []]. reflexivity.
Defined.

(** The state file holds the binary digits of the state's code. *)
Fixpoint pos_bytes (p : positive) : list byte :=
  match p with
  | xH => []
  | xO q => x30 :: pos_bytes q
  | xI q => x31 :: pos_bytes q
  end.

Fixpoint bytes_pos (l : list byte) : option positive :=
  match l with
  | [] => Some xH
  | x30 :: l' => option_map xO (bytes_pos l')
  | x31 :: l' => option_map xI (bytes_pos l')
  | _ => None
  end.

Definition MarshalIndent (s : backupState) : Result (list byte) :=
  Ok (pos_bytes (encode s)).

Definition Unmarshal (data : list byte) : Result backupState :=
  match bytes_pos data with
  | None => Err (ErrMsg "invalid character")
  | Some p =>
      match decode p with
      | Some s => Ok s
      | None => Err (ErrMsg "cannot unmarshal into Go value of type backupState")
      end
  end.

(** Rows are rendered as [{key:value,...}]; floats and foreign values are
    refused. *)
Definition unsupported (v : value) : bool :=
  match v with
  | VFloat64 _ | VOther _ _ | VBytes _ | VTime _ => true
  | _ => false
  end.

Definition render (v : value) : string :=
  match v with
  | VInt64 n | VUint64 n => pretty n
  | VString s => s
  | VBool true => "true"
  | VBool false => "false"
  | _ => "null"
  end.

Definition Marshal (row : gmap string value) : Result (list byte) :=
  let kvs := map_to_list row in
  if existsb (fun kv => unsupported (snd kv)) kvs
  then Err (ErrMsg "json: unsupported value")
  else Ok (list_byte_of_string
             ("{" +:+ String.concat "," (map (fun kv => fst kv +:+ ":" +:+ render (snd kv)) kvs)
                  +:+ "}")).

Definition Format (layout : string) (t : Time) : string :=
  pretty (sec t) +:+ "s" +:+ pretty (zone_offset t).

Definition table (cols : list string) (rows : list (list value)) : Rows :=
  {| rows_Columns := Ok cols; rows_steps := map ScanOk rows; rows_Err := None |}.

(** The events table: three events at first, two more from instant
    [later] on, when the revision changes too. *)
Definition later : nat := 51.

Definition event_row (id : Z) (kind : string) : list value :=
  [VInt64 id; VBytes (list_byte_of_string kind)].

Definition events_at (t : nat) : list (list value) :=
  [event_row 1 "created"; event_row 2 "updated"; event_row 3 "closed"] ++
  (if (t <? later)%nat then [] else [event_row 4 "reopened"; event_row 5 "closed"]).

Definition event_id (row : list value) : Z :=
  match row with
  | VInt64 id :: _ => id
  | _ => 0
  end.

Definition newer (wm : Z) (rows : list (list value)) : list (list value) :=
  List.filter (fun r => (wm <? event_id r)%Z) rows.

Definition commit_at (t : nat) : Result string :=
  if (t <? later)%nat then Ok "c1a2b3c4d5" else Ok "e6f7a8b9c0".

Definition query_at (t : nat) (q : string) (args : list value) : Result Rows :=
  if String.eqb q tableExistsQuery then Ok (table ["TABLE_NAME"] [])
  else if String.eqb q (eventsQuery false) then
    match args with
    | [VInt64 wm] => Ok (table ["id"; "event_type"] (newer wm (events_at t)))
    | _ => Err (ErrMsg "wrong number of arguments")
    end
  else if String.eqb q (issuesQuery false) then
    Ok (table ["id"; "title"]
          [[VString "bd-1"; VBytes (list_byte_of_string "first")];
           [VString "bd-2"; VBytes (list_byte_of_string "second")]])
  else if String.eqb q configQuery then
    Ok (table ["key"; "value"] [[VString "prefix"; VString "bd"]])
  else if String.eqb q (commentsQuery false) || String.eqb q (depsQuery false)
          || String.eqb q (labelsQuery false) then
    Ok (table [] [])
  else Err (ErrMsg "table not found").

(** A store with a shadow table.  It answers the merged issues query with
    the rows of both tables ascending by id, the shadow row first where the
    ids are equal. *)
Definition primary_rows : list (list value) :=
  [[VInt64 1; VString "primary"]; [VInt64 3; VString "primary"]; [VInt64 5; VString "primary"]].

Definition shadow_rows : list (list value) :=
  [[VInt64 2; VString "shadow"]; [VInt64 3; VString "shadow"]; [VInt64 4; VString "shadow"]].

Definition shadow_first : list (list value) :=
  [[VInt64 1; VString "primary"]; [VInt64 2; VString "shadow"];
   [VInt64 3; VString "shadow"]; [VInt64 3; VString "primary"];
   [VInt64 4; VString "shadow"]; [VInt64 5; VString "primary"]].

Definition shadow_query_at (t : nat) (q : string) (args : list value) : Result Rows :=
  if String.eqb q tableExistsQuery then Ok (table ["TABLE_NAME"] [[VString "wisps"]])
  else if String.eqb q (issuesQuery true) then Ok (table ["id"; "source"] shadow_first)
  else query_at t q args.

(** A store whose metadata query fails. *)
Definition no_metadata_query_at (t : nat) (q : string) (args : list value) : Result Rows :=
  if String.eqb q tableExistsQuery then Err (ErrMsg "connection refused")
  else query_at t q args.

Definition env : Env :=
  {| json_Marshal := Marshal;
     json_MarshalIndent := MarshalIndent;
     json_Unmarshal := Unmarshal;
     time_Format := Format;
     config_GetString := fun _ => "";
     os_UserHomeDir := "/home/u";
     beads_FindBeadsDir := "";
     store_commit := commit_at;
     store_query := query_at;
     os_fault := fun _ => None;
     os_short := fun _ => 0%nat;
     os_random := fun t => pretty t;
     time_now := fun t => {| sec := 63900000000 + Z.of_nat t; nsec := 0; zone_offset := 3600 |} |}.

(** The same environment with the call made at instant [t] failing. *)
Definition failing_at (t : nat) (E : Env) : Env :=
  {| json_Marshal := json_Marshal E;
     json_MarshalIndent := json_MarshalIndent E;
     json_Unmarshal := json_Unmarshal E;
     time_Format := time_Format E;
     config_GetString := config_GetString E;
     os_UserHomeDir := os_UserHomeDir E;
     beads_FindBeadsDir := beads_FindBeadsDir E;
     store_commit := store_commit E;
     store_query := store_query E;
     os_fault := fun t' => if (t' =? t)%nat then Some "input/output error" else os_fault E t';
     os_short := os_short E;
     os_random := os_random E;
     time_now := time_now E |}.

(** The same environment with another store. *)
Definition with_store (q : nat -> string -> list value -> Result Rows) (E : Env) : Env :=
  {| json_Marshal := json_Marshal E;
     json_MarshalIndent := json_MarshalIndent E;
     json_Unmarshal := json_Unmarshal E;
     time_Format := time_Format E;
     config_GetString := config_GetString E;
     os_UserHomeDir := os_UserHomeDir E;
     beads_FindBeadsDir := beads_FindBeadsDir E;
     store_commit := store_commit E;
     store_query := q;
     os_fault := os_fault E;
     os_short := os_short E;
     os_random := os_random E;
     time_now := time_now E |}.

(** An empty disk and nothing done yet. *)
Definition fresh : World := {| files := ∅; trace := [] |}.

Definition dir : string := ".beads/backup".

(** The world after a first run, and the state that run returned. *)
Definition after_first_run : World := (runBackupExport env false fresh).2.

Definition first_state : backupState :=
  match (runBackupExport env false fresh).1 with
  | Ok st => st
  | Err _ => zero_state
  end.

(** A disk whose state file is not a state. *)
Definition corrupt : World :=
  {| files := {[ state_path dir := [x7b] ]}; trace := [] |}.

Definition shadow_env : Env := with_store shadow_query_at env.

(** A store whose second row cannot be scanned. *)
Definition bad_row : Rows :=
  {| rows_Columns := Ok ["id"];
     rows_steps := [ScanOk [VInt64 1]; ScanErr (ErrMsg "unsupported Scan")];
     rows_Err := None |}.

Definition bad_row_env : Env := with_store (fun _ _ _ => Ok bad_row) env.

Definition two_issues : Rows :=
  table ["id"; "title"]
    [[VString "bd-1"; VBytes (list_byte_of_string "first")];
     [VString "bd-2"; VBytes (list_byte_of_string "second")]].

Definition no_metadata_env : Env := with_store no_metadata_query_at env.

(** The same environment with another answer to the revision query. *)
Definition with_commit (c : nat -> Result string) (E : Env) : Env :=
  {| json_Marshal := json_Marshal E;
     json_MarshalIndent := json_MarshalIndent E;
     json_Unmarshal := json_Unmarshal E;
     time_Format := time_Format E;
     config_GetString := config_GetString E;
     os_UserHomeDir := os_UserHomeDir E;
     beads_FindBeadsDir := beads_FindBeadsDir E;
     store_commit := c;
     store_query := store_query E;
     os_fault := os_fault E;
     os_short := os_short E;
     os_random := os_random E;
     time_now := time_now E |}.

(** A store that does not tell its revision. *)
Definition no_revision_env : Env :=
  with_commit (fun _ => Err (ErrMsg "connection refused")) env.

(** The world of a forced second run when it gets to the events export:
    the directory resolved, the state loaded, the probe and the issues
    export done. *)
Definition second_run_at_events : World :=
  (exportTable env dir "issues.jsonl" (issuesQuery false)
     (tableExistsCheck env "wisps"
        (loadBackupState env dir (backupDir env after_first_run).2).2).2).2.

(** The state that run has then. *)
Definition second_run_state : backupState := count_update issues 2 first_state.

End Demo.

(** ** Properties *)

(** *** The monad *)

Lemma bind_run {A B} (m : M A) (k : A -> M B) (w : World) :
  bind m k w = k (m w).1 (m w).2.
Proof. unfold bind. destruct (m w); reflexivity. Qed.

Lemma bind_inv {A B} (m : M A) (k : A -> M B) (w w2 : World) (b : B) :
  bind m k w = (b, w2) -> exists a w1, m w = (a, w1) /\ k a w1 = (b, w2).
Proof. rewrite bind_run. destruct (m w) as [a w1]. simpl. eauto. Qed.

Lemma now_emit (e : Event) (w : World) : now (emit e w) = S (now w).
Proof. unfold now, emit. simpl. rewrite length_app. simpl. lia. Qed.

(** *** Row Normalizer *)

(** C6. [normalizeValue] is a total function from values to values (it has
    no error result): raw bytes become the string with the same bytes, the
    zero time becomes nil and any other time the string [Format(RFC3339)]
    gives, nil stays nil and every other value is returned as it is; no
    result is a byte sequence or a time any more. *)
Theorem normalizeValue_total (E : Env) (v : value) :
  (forall b : list byte,
      normalizeValue E (VBytes b) = VString (string_of_list_byte b)
      /\ list_byte_of_string (string_of_list_byte b) = b)
  /\ (forall t : Time,
      normalizeValue E (VTime t)
      = if IsZero t then VNil else VString (time_Format E time_RFC3339 t))
  /\ normalizeValue E VNil = VNil
  /\ match v with
     | VBytes _ | VTime _ => True
     | _ => normalizeValue E v = v
     end
  /\ match normalizeValue E v with
     | VBytes _ | VTime _ => False
     | _ => True
     end.
Proof.
  split; [|split; [|split; [|split]]].
  - intros b. split; [reflexivity|]. apply list_byte_of_string_of_list_byte.
  - intros t. reflexivity.
  - reflexivity.
  - destruct v; simpl; auto.
  - destruct v; simpl; auto. destruct (IsZero t); exact I.
Qed.

(** *** Paths *)

Lemma append_inv_head (a b c : string) : a +:+ b = a +:+ c -> b = c.
Proof.
  induction a as [|ch a IH]; simpl; intros H; [exact H|].
  injection H as H. auto.
Qed.

Lemma filepath_Join_inj (dir f g : string) :
  filepath_Join dir f = filepath_Join dir g -> f = g.
Proof.
  unfold filepath_Join. intros H.
  apply append_inv_head in H. injection H as H. exact H.
Qed.

Lemma has_separator_Join (dir name : string) :
  has_separator (filepath_Join dir name) = true.
Proof.
  unfold filepath_Join. induction dir as [|ch dir IH]; simpl; [reflexivity|].
  rewrite IH. apply orb_true_r.
Qed.

Lemma filepath_Dir_Join (dir name : string) :
  has_separator name = false -> filepath_Dir (filepath_Join dir name) = dir.
Proof.
  intros Hname. induction dir as [|ch dir IH].
  - unfold filepath_Join. simpl. change ("" +:+ name) with name.
    rewrite Hname. reflexivity.
  - change (filepath_Join (String ch dir) name) with (String ch (filepath_Join dir name)).
    simpl. rewrite has_separator_Join, IH. reflexivity.
Qed.

Lemma temp_name_backup (random : string) :
  temp_name ".backup-tmp-*" random = String "." ("backup-tmp-" +:+ (random +:+ "")).
Proof. reflexivity. Qed.

Lemma temp_path_ne (E : Env) (dir f g : string) (w : World) :
  has_separator f = false -> plain_name g = true ->
  temp_path E (filepath_Join dir f) w <> filepath_Join dir g.
Proof.
  intros Hf Hg Heq. unfold temp_path in Heq. rewrite filepath_Dir_Join in Heq by exact Hf.
  apply filepath_Join_inj in Heq. rewrite temp_name_backup in Heq.
  destruct g as [|c g]; [discriminate Heq|].
  inversion Heq; subst c. discriminate Hg.
Qed.

(** *** Atomic File Writer *)

Lemma trace_emit (e : Event) (w : World) : trace (emit e w) = trace w ++ [e].
Proof. reflexivity. Qed.

Lemma files_emit (e : Event) (w : World) : files (emit e w) = files w.
Proof. reflexivity. Qed.

Lemma now_with_files (f : gmap string (list byte)) (w : World) : now (with_files f w) = now w.
Proof. reflexivity. Qed.

Lemma app_snoc {A} (l l' : list A) (x : A) : (l ++ l') ++ [x] = l ++ (l' ++ [x]).
Proof. symmetry. apply app_assoc. Qed.

(** What one call of [atomicWriteFile] does: it only names its temp file
    and its target; on success the target holds exactly the payload and no
    other file has changed; on failure the target is as it was. *)
Lemma atomicWriteFile_effect (E : Env) (path : string) (data : list byte)
    (w w' : World) (err : error) :
  atomicWriteFile E path data w = (err, w') ->
  let tmp := temp_path E path w in
  exists l,
    trace w' = trace w ++ l
    /\ forallb (atomic_event tmp path) l = true
    /\ (length (List.filter is_rename l) <= 1)%nat
    /\ (forall p, p <> path -> p <> tmp -> files w' !! p = files w !! p)
    /\ (err = None -> files w' = <[path := data]> (files w))
    /\ (err <> None -> tmp <> path -> files w' !! path = files w !! path).
Proof.
  intros H. cbv zeta. unfold temp_path. revert H.
  cbv [atomicWriteFile bind ret os_CreateTemp file_Write file_Sync file_Close
       os_Rename os_Remove fault_error].
  generalize (filepath_Join (filepath_Dir path)
                (temp_name ".backup-tmp-*" (os_random E (now w)))).
  intros tmp H.
  repeat case_match; simplify_eq.
  all: cbn [trace files emit with_files]; rewrite <- ?app_assoc; cbn [app].
  all: eexists; split; [reflexivity|].
  all: cbn [forallb atomic_event List.filter is_rename length];
    rewrite ?String.eqb_refl; cbn [andb].
  all: split; [reflexivity|]; split; [lia|].
  all: split; [intros p Hp1 Hp2
              |split; [intros Herr; try discriminate Herr
                      |intros Herr Hne; try congruence]].
  all: try (simplify_map_eq; reflexivity).
  cbn [files emit with_files] in *. clear Herr.
  apply map_eq. intros i.
  destruct (decide (i = path)) as [->|Hi]; simplify_map_eq; [reflexivity|].
  match goal with
  | Hnew : files w !! ?t = None |- _ =>
      destruct (decide (i = t)) as [Heq|Hi'];
        [ rewrite Heq, lookup_delete_eq; symmetry; exact Hnew
        | rewrite lookup_delete_ne, lookup_alter_ne, lookup_insert_ne by congruence;
          reflexivity ]
  end.
Qed.

(** *** Calls into the store *)

Lemma QueryContext_run (E : Env) (q : string) (args : list value) (w : World) :
  QueryContext E q args w = (store_query E (now w) q args, emit (EvQuery q args) w).
Proof. reflexivity. Qed.

Lemma store_GetCurrentCommit_run (E : Env) (w : World) :
  store_GetCurrentCommit E w = (store_commit E (now w), emit EvGetCurrentCommit w).
Proof. reflexivity. Qed.

Lemma ret_run {A} (a : A) (w : World) : ret a w = (a, w).
Proof. reflexivity. Qed.

(** *** Generic Table Exporter *)

Lemma exportTable_loop_spec (E : Env) (cols : list string) (steps : list RowStep)
    (lines : list byte) (count : Z) :
  if forallb (row_ok E cols) steps
  then exportTable_loop E cols steps lines count
       = Ok (lines ++ rows_lines E cols steps, (count + Z.of_nat (length steps))%Z)
  else exists e, exportTable_loop E cols steps lines count = Err e.
Proof.
  revert lines count. induction steps as [|step steps IH]; intros lines count.
  - simpl. rewrite app_nil_r, Z.add_0_r. reflexivity.
  - destruct step as [values|e]; simpl; [|eauto].
    destruct (json_Marshal E (build_row E cols values ∅)) as [data|e]; simpl; [|eauto].
    specialize (IH ((lines ++ data) ++ [newline]) (count + 1)%Z).
    destruct (forallb (row_ok E cols) steps); [|exact IH].
    rewrite IH. f_equal. f_equal.
    + unfold rows_lines. rewrite <- !app_assoc. reflexivity.
    + lia.
Qed.

(** [exportTable] once the query ran and its columns are known: a failing
    row or iteration ends it right after the query; otherwise it is the
    atomic write of all lines. *)
Lemma exportTable_run (E : Env) (dir filename query : string)
    (w : World) (rows : Rows) (cols : list string) :
  store_query E (now w) query [] = Ok rows ->
  rows_Columns rows = Ok cols ->
  let w1 := emit (EvQuery query []) w in
  let write := atomicWriteFile E (filepath_Join dir filename)
                 (rows_lines E cols (rows_steps rows)) w1 in
  if forallb (row_ok E cols) (rows_steps rows) && no_error (rows_Err rows)
  then exportTable E dir filename query w
       = ((Z.of_nat (length (rows_steps rows)), write.1), write.2)
  else exists e, exportTable E dir filename query w = ((0%Z, Some e), w1).
Proof.
  intros Hq Hcols w1 write.
  unfold exportTable. rewrite bind_run, QueryContext_run. cbn [fst snd].
  rewrite Hq, Hcols.
  pose proof (exportTable_loop_spec E cols (rows_steps rows) [] 0) as Hloop.
  destruct (forallb (row_ok E cols) (rows_steps rows)); cbn [andb].
  - rewrite Hloop. cbn [app].
    destruct (rows_Err rows) as [e|]; cbn [no_error].
    + rewrite ret_run. eexists. reflexivity.
    + rewrite bind_run. reflexivity.
  - destruct Hloop as [e Hloop]. rewrite Hloop, ret_run. eexists. reflexivity.
Qed.

(** C4. When the query ran and its columns are known: if some row fails to
    scan or to serialize, or the iteration ends with an error, [exportTable]
    returns count 0 with an error and has touched no file (the only new
    call in the trace is the query); otherwise it hands the lines of all
    rows, in order, to [atomicWriteFile] and returns the number of rows with
    that call's error; when that error is nil the output file holds exactly
    those lines and no other file has changed, and when it is not the
    output file is as it was. *)
Theorem exportTable_all_or_nothing (E : Env) (dir filename query : string)
    (w : World) (rows : Rows) (cols : list string) :
  store_query E (now w) query [] = Ok rows ->
  rows_Columns rows = Ok cols ->
  let path := filepath_Join dir filename in
  let lines := rows_lines E cols (rows_steps rows) in
  if forallb (row_ok E cols) (rows_steps rows) && no_error (rows_Err rows)
  then exists err w',
      atomicWriteFile E path lines (emit (EvQuery query []) w) = (err, w')
      /\ exportTable E dir filename query w
         = ((Z.of_nat (length (rows_steps rows)), err), w')
      /\ (err = None -> files w' = <[path := lines]> (files w))
      /\ (err <> None -> has_separator filename = false -> plain_name filename = true ->
          files w' !! path = files w !! path)
  else exists e w',
      exportTable E dir filename query w = ((0%Z, Some e), w')
      /\ files w' = files w
      /\ trace w' = trace w ++ [EvQuery query []].
Proof.
  intros Hq Hcols path lines.
  pose proof (exportTable_run E dir filename query w rows cols Hq Hcols) as Hrun.
  cbv zeta in Hrun. fold path lines in Hrun.
  destruct (forallb (row_ok E cols) (rows_steps rows) && no_error (rows_Err rows)).
  - destruct (atomicWriteFile E path lines (emit (EvQuery query []) w)) as [err w'] eqn:Hw.
    exists err, w'. split; [reflexivity|]. split; [exact Hrun|].
    apply atomicWriteFile_effect in Hw as (l & _ & _ & _ & _ & Hok & Hfail).
    split; [exact Hok|].
    intros Herr Hsep Hplain. rewrite (Hfail Herr); [reflexivity|].
    apply temp_path_ne; assumption.
  - destruct Hrun as [e Hrun]. exists e, (emit (EvQuery query []) w).
    split; [exact Hrun|]. split; reflexivity.
Qed.


(** *** Incremental Stream Exporter *)

Lemma track_maxID_spec (E : Env) (cols : list string) (values : list value) (m : Z) :
  track_maxID (build_row E cols values ∅) m
  = match row_id E cols (ScanOk values) with
    | Some id => Z.max m id
    | None => m
    end.
Proof.
  unfold track_maxID, row_id.
  destruct (build_row E cols values ∅ !! "id") as [[]|]; try reflexivity.
  destruct (Z.ltb_spec m n); lia.
Qed.

Lemma exportEvents_loop_spec (E : Env) (cols : list string) (steps : list RowStep)
    (lines : list byte) (count maxID : Z) :
  if forallb (row_ok E cols) steps
  then exportEvents_loop E cols steps lines count maxID
       = Ok (lines ++ rows_lines E cols steps, (count + Z.of_nat (length steps))%Z,
             max_id E cols steps maxID)
  else exists e, exportEvents_loop E cols steps lines count maxID = Err e.
Proof.
  revert lines count maxID. induction steps as [|step steps IH]; intros lines count maxID.
  - simpl. rewrite app_nil_r, Z.add_0_r. reflexivity.
  - destruct step as [values|e]; [|simpl; eauto].
    cbn [forallb row_ok exportEvents_loop].
    destruct (json_Marshal E (build_row E cols values ∅)) as [data|e] eqn:Hm;
      cbn [andb]; [|eauto].
    specialize (IH ((lines ++ data) ++ [newline]) (count + 1)%Z
                  (track_maxID (build_row E cols values ∅) maxID)).
    destruct (forallb (row_ok E cols) steps); [|exact IH].
    rewrite IH. f_equal. f_equal; [f_equal|].
    + unfold rows_lines. cbn [flat_map row_line]. rewrite Hm, <- !app_assoc. reflexivity.
    + cbn [length]. lia.
    + cbn [max_id fold_left]. rewrite track_maxID_spec. reflexivity.
Qed.

(** C5. When the watermark-filtered query answers with no row (and no
    error), [exportEventsIncremental] returns count 0 and a nil error,
    leaves the state, and with it [LastEventID], as it was, and does
    nothing but send the query: no file is created, opened or changed. *)
Theorem exportEventsIncremental_no_rows (E : Env) (dir : string) (state : backupState)
    (hasWisps : bool) (w : World) (rows : Rows) (cols : list string) :
  store_query E (now w) (eventsQuery hasWisps) (eventsArgs hasWisps state) = Ok rows ->
  rows_Columns rows = Ok cols ->
  rows_steps rows = [] ->
  rows_Err rows = None ->
  exists w',
    exportEventsIncremental E dir state hasWisps w = ((0%Z, None, state), w')
    /\ files w' = files w
    /\ trace w' = trace w ++ [EvQuery (eventsQuery hasWisps) (eventsArgs hasWisps state)].
Proof.
  intros Hq Hcols Hsteps Herr.
  unfold exportEventsIncremental. rewrite bind_run, QueryContext_run. cbn [fst snd].
  rewrite Hq, Hcols, Hsteps. cbn [exportEvents_loop]. rewrite Herr.
  change (0 =? 0)%Z with true. cbv iota. rewrite ret_run.
  eexists. split; [reflexivity|]. split; reflexivity.
Qed.

(** *** What the exporters touch *)

Lemma atomic_event_touches (tmp path : string) (e : Event) :
  atomic_event tmp path e = true -> touches_only [tmp; path] e = true.
Proof.
  destruct e; cbn; try discriminate; intros H.
  all: try (rewrite H; reflexivity).
  apply andb_prop in H as [-> ->]. rewrite orb_true_r. reflexivity.
Qed.

Lemma forallb_impl {A} (f g : A -> bool) (l : list A) :
  (forall x, f x = true -> g x = true) -> forallb f l = true -> forallb g l = true.
Proof.
  intros Hfg. induction l as [|x l IH]; cbn; [reflexivity|].
  intros H. apply andb_prop in H as [Hx Hl]. rewrite (Hfg _ Hx), (IH Hl). reflexivity.
Qed.

Lemma touches_only_queries (ps : list string) (l : list Event) :
  forallb (touches_only ps) l = true -> queries l = [].
Proof.
  induction l as [|e l IH]; cbn; [reflexivity|].
  intros H. apply andb_prop in H as [He Hl]. destruct e; try discriminate He; auto.
Qed.

Lemma touches_only_writes_to (ps : list string) (p : string) (e : Event) :
  touches_only ps e = true -> ~ In p ps -> writes_to p e = false.
Proof.
  intros He Hp. unfold writes_to.
  destruct (existsb (String.eqb p) (event_files e)) eqn:Hex; [|apply andb_false_r].
  exfalso. apply existsb_exists in Hex as (q & Hq & Hpq).
  apply String.eqb_eq in Hpq. subst q.
  assert (Hall : forallb (fun p => existsb (String.eqb p) ps) (event_files e) = true)
    by (destruct e; try discriminate He; exact He).
  rewrite forallb_forall in Hall. specialize (Hall p Hq).
  apply existsb_exists in Hall as (q & Hq' & Hpq). apply String.eqb_eq in Hpq.
  subst q. exact (Hp Hq').
Qed.

Lemma touches_only_no_writes (ps : list string) (p : string) (l : list Event) :
  forallb (touches_only ps) l = true -> ~ In p ps ->
  List.filter (writes_to p) l = [].
Proof.
  intros Hl Hp. induction l as [|e l IH]; cbn; [reflexivity|].
  cbn in Hl. apply andb_prop in Hl as [He Hl].
  rewrite (touches_only_writes_to _ _ _ He Hp). auto.
Qed.

(** [exportTable] sends its query and then only names its temp file and
    its output file; every other file is as before. *)
Lemma exportTable_effect (E : Env) (dir filename query : string) (w w' : World)
    (n : Z) (err : error) :
  exportTable E dir filename query w = ((n, err), w') ->
  let path := filepath_Join dir filename in
  let tmp := temp_path E path (emit (EvQuery query []) w) in
  exists l,
    trace w' = trace w ++ EvQuery query [] :: l
    /\ forallb (touches_only [tmp; path]) l = true
    /\ (forall p, p <> path -> p <> tmp -> files w' !! p = files w !! p).
Proof.
  intros H path tmp. unfold exportTable in H.
  rewrite bind_run, QueryContext_run in H. cbn [fst snd] in H.
  assert (Hstop : forall r : Z * error,
             ret r (emit (EvQuery query []) w) = (n, err, w') ->
             exists l, trace w' = trace w ++ EvQuery query [] :: l
                       /\ forallb (touches_only [tmp; path]) l = true
                       /\ (forall p, p <> path -> p <> tmp -> files w' !! p = files w !! p)).
  { intros r Hr. rewrite ret_run in Hr. injection Hr as _ <-.
    exists []. split; [reflexivity|]. split; [reflexivity|]. reflexivity. }
  destruct (store_query E (now w) query []) as [rows|e]; [|eauto].
  destruct (rows_Columns rows) as [cols|e]; [|eauto].
  destruct (exportTable_loop E cols (rows_steps rows) [] 0) as [[lines count]|e]; [|eauto].
  destruct (rows_Err rows) as [e|]; [eauto|].
  rewrite bind_run in H. fold path in H.
  destruct (atomicWriteFile E path lines (emit (EvQuery query []) w)) as [err' w1] eqn:Hw.
  cbn [fst snd] in H. rewrite ret_run in H. injection H as _ _ <-.
  apply atomicWriteFile_effect in Hw as (l & Htr & Hev & _ & Hframe & _).
  exists l. split; [|split].
  - rewrite Htr, trace_emit, <- app_assoc. reflexivity.
  - revert Hev. apply forallb_impl, atomic_event_touches.
  - intros p Hp1 Hp2. rewrite Hframe by assumption. reflexivity.
Qed.

Lemma exportEventsIncremental_effect (E : Env) (dir : string) (st st' : backupState)
    (hw : bool) (w w' : World) (n : Z) (err : error) :
  exportEventsIncremental E dir st hw w = ((n, err, st'), w') ->
  events_post E dir st hw w n err st' w'.
Proof.
  intros H. unfold exportEventsIncremental in H.
  rewrite bind_run, QueryContext_run in H. cbn [fst snd] in H.
  set (path := events_path dir) in *.
  set (w1 := emit (EvQuery (eventsQuery hw) (eventsArgs hw st)) w) in *.
  set (tmp := temp_path E path w1).
  assert (Hstop : forall e : error_value,
             ret (0%Z, Some e, st) w1 = (n, err, st', w') ->
             events_post E dir st hw w n err st' w').
  { intros e Hr. rewrite ret_run in Hr. injection Hr as <- <- <- <-.
    exists []. split; [reflexivity|]. split; [reflexivity|]. split; [reflexivity|].
    split; [reflexivity|discriminate]. }
  destruct (store_query E (now w) (eventsQuery hw) (eventsArgs hw st)) as [rows|e] eqn:Hq;
    [|eauto].
  destruct (rows_Columns rows) as [cols|e] eqn:Hcols; [|eauto].
  pose proof (exportEvents_loop_spec E cols (rows_steps rows) [] 0 0) as Hloop.
  destruct (forallb (row_ok E cols) (rows_steps rows)) eqn:Hrows;
    [|destruct Hloop as [e Hloop]; rewrite Hloop in H; eauto].
  rewrite Hloop in H. clear Hloop. cbn [app] in H.
  destruct (rows_Err rows) as [e|]; [eauto|].
  set (lines := rows_lines E cols (rows_steps rows)) in *.
  set (count := (0 + Z.of_nat (length (rows_steps rows)))%Z) in *.
  assert (Hcount : count = Z.of_nat (length (rows_steps rows))) by (unfold count; lia).
  clear Hstop.
  destruct (count =? 0)%Z eqn:Hzero.
  { rewrite ret_run in H. injection H as <- <- <- <-.
    exists []. split; [reflexivity|]. split; [reflexivity|]. split; [reflexivity|].
    split; [reflexivity|]. intros _. exists rows, cols.
    apply Z.eqb_eq in Hzero. rewrite <- Hcount, Hzero.
    repeat (split; [first [reflexivity | assumption]|]). intros Hne. congruence. }
  assert (Hdone : forall l w2,
             trace w2 = trace w1 ++ l ->
             forallb (touches_only [tmp; path]) l = true ->
             (forall p, p <> path -> p <> tmp -> files w2 !! p = files w1 !! p) ->
             files w2 !! path
             = Some ((if (LastEventID st =? 0)%Z then [] else default [] (files w !! path))
                     ++ lines) ->
             ret (count, None, set_LastEventID (max_id E cols (rows_steps rows) 0) st) w2
             = (n, err, st', w') ->
             events_post E dir st hw w n err st' w').
  { intros l w2 Htr Hev Hframe Hcontent Hr. rewrite ret_run in Hr.
    injection Hr as <- <- <- <-.
    exists l. split; [rewrite Htr; unfold w1; rewrite trace_emit, <- app_assoc; reflexivity|].
    split; [exact Hev|]. split; [exact Hframe|]. split; [congruence|].
    intros _. exists rows, cols. rewrite Hzero.
    repeat (split; [first [reflexivity | assumption]|]). intros _. exact Hcontent. }
  assert (Hfail : forall l w2 e,
             trace w2 = trace w1 ++ l ->
             forallb (touches_only [tmp; path]) l = true ->
             (forall p, p <> path -> p <> tmp -> files w2 !! p = files w1 !! p) ->
             ret (0%Z, Some e, st) w2 = (n, err, st', w') ->
             events_post E dir st hw w n err st' w').
  { intros l w2 e Htr Hev Hframe Hr. rewrite ret_run in Hr. injection Hr as <- <- <- <-.
    exists l. split; [rewrite Htr; unfold w1; rewrite trace_emit, <- app_assoc; reflexivity|].
    split; [exact Hev|]. split; [exact Hframe|]. split; [reflexivity|discriminate]. }
  destruct (LastEventID st =? 0)%Z.
  - rewrite bind_run in H.
    destruct (atomicWriteFile E path lines w1) as [err' w2] eqn:Hw. cbn [fst snd] in H.
    apply atomicWriteFile_effect in Hw as (l & Htr & Hev & _ & Hframe & Hok & _).
    fold tmp in Hev, Hframe.
    assert (Hev' : forallb (touches_only [tmp; path]) l = true)
      by (revert Hev; apply forallb_impl, atomic_event_touches).
    destruct err' as [e|]; [eapply Hfail; eassumption|].
    eapply Hdone; try eassumption.
    rewrite (Hok eq_refl). apply lookup_insert_eq.
  - revert H.
    cbv [bind os_OpenFile_append file_Write file_Close fault_error].
    change (files w1) with (files w).
    intros H.
    repeat case_match; simplify_eq.
    all: match goal with
         | Hr : ret (_, Some _, _) ?w2 = _ |- _ => eapply (Hfail _ w2 _); [| | |exact Hr]
         | Hr : ret (_, None, _) ?w2 = _ |- _ => eapply (Hdone _ w2); [| | | |exact Hr]
         end.
    all: cbn [trace files emit with_files]; rewrite <- ?app_assoc; cbn [app].
    all: try reflexivity.
    all: try (cbn [forallb touches_only event_files existsb];
              rewrite ?String.eqb_refl, ?orb_true_r; reflexivity).
    all: try (intros p Hp1 Hp2; simplify_map_eq; reflexivity).
    all: simplify_map_eq; reflexivity.
Qed.

(** *** The steps of a run *)

Lemma export_entity_table (E : Env) (dir : string) (hw : bool) (ent : entity)
    (st : backupState) (w w' : World) (n : Z) (err : error) :
  ent <> events ->
  exportTable E dir (entity_file ent) (entity_query hw ent) w = ((n, err), w') ->
  export_entity E dir hw ent st w = ((n, err, count_update ent n st), w').
Proof.
  intros Hent H. destruct ent; try congruence;
    unfold export_entity; rewrite bind_run, H; reflexivity.
Qed.

Lemma export_entity_events (E : Env) (dir : string) (hw : bool)
    (st st1 : backupState) (w w' : World) (n : Z) (err : error) :
  exportEventsIncremental E dir st hw w = ((n, err, st1), w') ->
  export_entity E dir hw events st w = ((n, err, count_update events n st1), w').
Proof. intros H. unfold export_entity. rewrite bind_run, H. reflexivity. Qed.

Ltac table_step H hw ent st :=
  apply (export_entity_table _ _ hw ent st) in H; [|discriminate].

Lemma runBackupExport_inv (E : Env) (force : bool) (w w' : World) (r : Result backupState) :
  runBackupExport E force w = (r, w') ->
  (exists e, backupDir E w = (Err e, w') /\ r = Err e)
  \/ exists dir w1, backupDir E w = (Ok dir, w1)
     /\ ((exists e, loadBackupState E dir w1 = (Err e, w') /\ r = Err e)
         \/ exists state w2, loadBackupState E dir w1 = (Ok state, w2)
            /\ (change_detection E force state w2 = (Some r, w')
                \/ exists w3 hw w4,
                   change_detection E force state w2 = (None, w3)
                   /\ tableExistsCheck E "wisps" w3 = (hw, w4)
                   /\ run_exports E dir hw state w4 r w')).
Proof.
  unfold runBackupExport. intros H.
  rewrite bind_run in H. destruct (backupDir E w) as [[dir|e] w1]; cbn [fst snd] in H;
    [|rewrite ret_run in H; injection H as <- <-; left; eauto].
  right. exists dir, w1. split; [reflexivity|].
  rewrite bind_run in H. destruct (loadBackupState E dir w1) as [[state|e] w2];
    cbn [fst snd] in H; [|rewrite ret_run in H; injection H as <- <-; left; eauto].
  right. exists state, w2. split; [reflexivity|].
  rewrite bind_run in H. destruct (change_detection E force state w2) as [[r0|] w3];
    cbn [fst snd] in H; [rewrite ret_run in H; injection H as <- <-; left; reflexivity|].
  right. rewrite bind_run in H.
  destruct (tableExistsCheck E "wisps" w3) as [hw w4] eqn:Hprobe. cbn [fst snd] in H.
  exists w3, hw, w4. split; [reflexivity|]. split; [exact Hprobe|].
  rewrite bind_run in H.
  destruct (exportTable E dir "issues.jsonl" (issuesQuery hw) w4) as [[n1 [e|]] w5] eqn:H1;
    cbn [fst snd] in H; table_step H1 hw issues state.
  { rewrite ret_run in H. injection H as <- <-.
    eapply (exports_failed _ _ _ _ _ [] issues); [reflexivity|constructor|exact H1]. }
  rewrite bind_run in H.
  match type of H with
  | context [exportEventsIncremental E dir ?st hw w5] =>
      destruct (exportEventsIncremental E dir st hw w5) as [[[n2 [e|]] st2] w6] eqn:H2
  end; cbn [fst snd] in H; apply export_entity_events in H2.
  { rewrite ret_run in H. injection H as <- <-.
    eapply (exports_failed _ _ _ _ _ [issues] events); [reflexivity| |exact H2].
    repeat (econstructor; [eassumption|]); constructor. }
  rewrite bind_run in H.
  destruct (exportTable E dir "comments.jsonl" (commentsQuery hw) w6) as [[n3 [e|]] w7] eqn:H3;
    cbn [fst snd] in H; table_step H3 hw comments (count_update events n2 st2).
  { rewrite ret_run in H. injection H as <- <-.
    eapply (exports_failed _ _ _ _ _ [issues; events] comments); [reflexivity| |exact H3].
    repeat (econstructor; [eassumption|]); constructor. }
  rewrite bind_run in H.
  destruct (exportTable E dir "dependencies.jsonl" (depsQuery hw) w7) as [[n4 [e|]] w8] eqn:H4;
    cbn [fst snd] in H;
    table_step H4 hw dependencies (count_update comments n3 (count_update events n2 st2)).
  { rewrite ret_run in H. injection H as <- <-.
    eapply (exports_failed _ _ _ _ _ [issues; events; comments] dependencies);
      [reflexivity| |exact H4].
    repeat (econstructor; [eassumption|]); constructor. }
  rewrite bind_run in H.
  destruct (exportTable E dir "labels.jsonl" (labelsQuery hw) w8) as [[n5 [e|]] w9] eqn:H5;
    cbn [fst snd] in H;
    table_step H5 hw labels
      (count_update dependencies n4 (count_update comments n3 (count_update events n2 st2))).
  { rewrite ret_run in H. injection H as <- <-.
    eapply (exports_failed _ _ _ _ _ [issues; events; comments; dependencies] labels);
      [reflexivity| |exact H5].
    repeat (econstructor; [eassumption|]); constructor. }
  rewrite bind_run in H.
  destruct (exportTable E dir "config.jsonl" configQuery w9) as [[n6 [e|]] w10] eqn:H6;
    cbn [fst snd] in H;
    table_step H6 hw config
      (count_update labels n5
         (count_update dependencies n4 (count_update comments n3 (count_update events n2 st2)))).
  { rewrite ret_run in H. injection H as <- <-.
    eapply (exports_failed _ _ _ _ _ [issues; events; comments; dependencies; labels] config);
      [reflexivity| |exact H6].
    repeat (econstructor; [eassumption|]); constructor. }
  assert (Hall : exported E dir hw run_order state w4
                   (count_update config n6
                      (count_update labels n5
                         (count_update dependencies n4
                            (count_update comments n3
                               (count_update events n2 st2))))) w10).
  { unfold run_order. repeat (econstructor; [eassumption|]). constructor. }
  rewrite bind_run in H.
  destruct (store_GetCurrentCommit E w10) as [[c|e] w11] eqn:H7; cbn [fst snd] in H.
  2:{ rewrite ret_run in H. injection H as <- <-. eapply commit_failed; eassumption. }
  rewrite bind_run in H. destruct (time_Now E w11) as [t w12] eqn:H8. cbn [fst snd] in H.
  rewrite bind_run in H.
  match type of H with
  | context [saveBackupState E dir ?st w12] =>
      destruct (saveBackupState E dir st w12) as [err w13] eqn:H9
  end.
  cbn [fst snd] in H.
  pose proof (save_attempted E dir hw state w4 _ _ _ _ _ _ _ _ Hall H7 H8 H9) as Hsave.
  destruct err as [e|]; rewrite ret_run in H; injection H as <- <-; exact Hsave.
Qed.

(** *** Frames *)

Lemma untouched_refl (p : string) (w : World) : untouched p w w.
Proof. split; [reflexivity|]. exists []. split; [symmetry; apply app_nil_r|reflexivity]. Qed.

Lemma filter_app_nil {A} (f : A -> bool) (l1 l2 : list A) :
  List.filter f l1 = [] -> List.filter f l2 = [] -> List.filter f (l1 ++ l2) = [].
Proof. intros H1 H2. rewrite List.filter_app, H1, H2. reflexivity. Qed.

Lemma untouched_trans (p : string) (w1 w2 w3 : World) :
  untouched p w1 w2 -> untouched p w2 w3 -> untouched p w1 w3.
Proof.
  intros [Hf1 (l1 & Ht1 & Hl1)] [Hf2 (l2 & Ht2 & Hl2)]. split; [congruence|].
  exists (l1 ++ l2). split; [rewrite Ht2, Ht1, app_assoc; reflexivity|].
  apply filter_app_nil; assumption.
Qed.

Lemma untouched_emit (p : string) (e : Event) (w : World) :
  writes_to p e = false -> untouched p w (emit e w).
Proof.
  intros He. split; [reflexivity|]. exists [e]. split; [reflexivity|].
  cbn. rewrite He. reflexivity.
Qed.

Lemma queries_app (l1 l2 : list Event) : queries (l1 ++ l2) = queries l1 ++ queries l2.
Proof.
  induction l1 as [|e l1 IH]; [reflexivity|].
  destruct e; cbn; rewrite ?IH; reflexivity.
Qed.

Lemma export_entity_effect (E : Env) (dir : string) (hw : bool) (ent : entity)
    (st st1 : backupState) (w w' : World) (n : Z) (err : error) :
  export_entity E dir hw ent st w = ((n, err, st1), w') ->
  let path := filepath_Join dir (entity_file ent) in
  let q := EvQuery (entity_query hw ent) (entity_args hw ent st) in
  let tmp := temp_path E path (emit q w) in
  exists l,
    trace w' = trace w ++ q :: l
    /\ forallb (touches_only [tmp; path]) l = true
    /\ (forall p, p <> path -> p <> tmp -> files w' !! p = files w !! p).
Proof.
  intros H. destruct ent; unfold export_entity in H; rewrite bind_run in H.
  2:{ destruct (exportEventsIncremental E dir st hw w) as [[[n' err'] st'] w1] eqn:Hx.
      cbn [fst snd] in H. rewrite ret_run in H. injection H as _ _ _ <-.
      apply exportEventsIncremental_effect in Hx as (l & Htr & Hev & Hframe & _).
      exists l. auto. }
  all: match type of H with
       | context [exportTable ?e ?d ?f ?q ?w0] =>
           destruct (exportTable e d f q w0) as [[n' err'] w1] eqn:Hx
       end;
    cbn [fst snd] in H; rewrite ret_run in H; injection H as _ _ _ <-;
    apply exportTable_effect in Hx as (l & Htr & Hev & Hframe);
    exists l; auto.
Qed.

Lemma entity_file_plain (ent : entity) :
  has_separator (entity_file ent) = false
  /\ entity_file ent <> "backup_state.json".
Proof. destruct ent; split; (reflexivity || discriminate). Qed.

Lemma export_entity_untouched (E : Env) (dir : string) (hw : bool) (ent : entity)
    (st st1 : backupState) (w w' : World) (n : Z) (err : error) :
  export_entity E dir hw ent st w = ((n, err, st1), w') ->
  untouched (state_path dir) w w'.
Proof.
  intros H. apply export_entity_effect in H as (l & Htr & Hev & Hframe).
  destruct (entity_file_plain ent) as [Hsep Hne].
  assert (Hpath : state_path dir <> filepath_Join dir (entity_file ent)).
  { intros Heq. apply filepath_Join_inj in Heq. congruence. }
  match type of Hev with
  | forallb (touches_only [?t; _]) _ = _ =>
      assert (Htmp : state_path dir <> t)
        by (intros Heq; symmetry in Heq; revert Heq; apply temp_path_ne; [exact Hsep|reflexivity])
  end.
  split; [apply Hframe; assumption|].
  eexists. split; [exact Htr|].
  cbn [List.filter writes_to is_file_write andb]. 
  eapply touches_only_no_writes; [exact Hev|].
  cbn. intros [Heq|[Heq|[]]]; [apply Htmp|apply Hpath]; congruence.
Qed.

Lemma exported_untouched (E : Env) (dir : string) (hw : bool) (ents : list entity)
    (st st' : backupState) (w w' : World) :
  exported E dir hw ents st w st' w' -> untouched (state_path dir) w w'.
Proof.
  induction 1 as [|ent ents st w n st1 w1 st2 w2 Hstep _ IH]; [apply untouched_refl|].
  eapply untouched_trans; [|exact IH]. eapply export_entity_untouched; exact Hstep.
Qed.

Lemma export_entity_queries (E : Env) (dir : string) (hw : bool) (ent : entity)
    (st st1 : backupState) (w w' : World) (n : Z) (err : error) :
  export_entity E dir hw ent st w = ((n, err, st1), w') ->
  queries (trace w') = queries (trace w) ++ [entity_query hw ent].
Proof.
  intros H. apply export_entity_effect in H as (l & Htr & Hev & _).
  rewrite Htr, queries_app. cbn [queries]. 
  rewrite (touches_only_queries _ _ Hev). reflexivity.
Qed.

Lemma exported_queries (E : Env) (dir : string) (hw : bool) (ents : list entity)
    (st st' : backupState) (w w' : World) :
  exported E dir hw ents st w st' w' ->
  queries (trace w') = queries (trace w) ++ map (entity_query hw) ents.
Proof.
  induction 1 as [|ent ents st w n st1 w1 st2 w2 Hstep _ IH].
  - rewrite app_nil_r. reflexivity.
  - rewrite IH, (export_entity_queries _ _ _ _ _ _ _ _ _ _ Hstep), <- app_assoc. reflexivity.
Qed.

Lemma quiet_untouched (p : string) (w w' : World) : quiet w w' -> untouched p w w'.
Proof.
  intros [Hf (l & Htr & Hl)]. split; [rewrite Hf; reflexivity|].
  exists l. split; [exact Htr|]. clear Htr.
  induction l as [|e l IH]; [reflexivity|]. cbn in Hl. apply andb_prop in Hl as [He Hl].
  cbn. unfold writes_to. unfold quiet_event in He. apply andb_prop in He as [He _].
  destruct (is_file_write e); [discriminate He|]. cbn. auto.
Qed.

Lemma quiet_queries (w w' : World) : quiet w w' -> queries (trace w') = queries (trace w).
Proof.
  intros [_ (l & Htr & Hl)]. rewrite Htr, queries_app.
  assert (Hq : queries l = []).
  { clear Htr. induction l as [|e l IH]; [reflexivity|]. cbn in Hl.
    apply andb_prop in Hl as [He Hl]. destruct e; cbn in *; try discriminate; auto. }
  rewrite Hq, app_nil_r. reflexivity.
Qed.

Lemma quiet_trans (w1 w2 w3 : World) : quiet w1 w2 -> quiet w2 w3 -> quiet w1 w3.
Proof.
  intros [Hf1 (l1 & Ht1 & Hl1)] [Hf2 (l2 & Ht2 & Hl2)]. split; [congruence|].
  exists (l1 ++ l2). split; [rewrite Ht2, Ht1, app_assoc; reflexivity|].
  rewrite forallb_app, Hl1, Hl2. reflexivity.
Qed.

Ltac quiet_by_cases :=
  repeat case_match; simplify_eq;
  (split; [reflexivity|]);
  cbn [trace emit with_files]; rewrite <- ?app_assoc; cbn [app];
  (eexists; split; [first [reflexivity | symmetry; apply app_nil_r]|reflexivity]).

Lemma backupDir_quiet (E : Env) (w w' : World) (r : Result string) :
  backupDir E w = (r, w') -> quiet w w'.
Proof.
  cbv [backupDir bind ret os_Stat os_MkdirAll fault_error]. intros H. quiet_by_cases.
Qed.

Lemma loadBackupState_run (E : Env) (dir : string) (w : World) :
  loadBackupState E dir w
  = (match files w !! state_path dir with
     | None => Ok zero_state
     | Some data =>
         match os_fault E (now w) with
         | Some m => Err (Errorf "failed to read backup state: " (ErrMsg m))
         | None =>
             match json_Unmarshal E data with
             | Ok state => Ok state
             | Err e => Err (Errorf "failed to parse backup state: " e)
             end
         end
     end, emit (EvReadFile (state_path dir)) w).
Proof.
  cbv [loadBackupState bind ret os_ReadFile os_IsNotExist].
  repeat case_match; simplify_eq; congruence.
Qed.

Lemma loadBackupState_quiet (E : Env) (dir : string) (w w' : World) (r : Result backupState) :
  loadBackupState E dir w = (r, w') -> quiet w w'.
Proof.
  rewrite loadBackupState_run. intros H. injection H as _ <-.
  split; [reflexivity|]. exists [EvReadFile (state_path dir)]. split; reflexivity.
Qed.

Lemma change_detection_run (E : Env) (force : bool) (state : backupState) (w : World) :
  change_detection E force state w
  = if force then (None, w)
    else (match store_commit E (now w) with
          | Err e => Some (Err (Errorf "failed to get current commit: " e))
          | Ok currentCommit =>
              if String.eqb currentCommit (LastDoltCommit state)
                 && negb (String.eqb (LastDoltCommit state) "")
              then Some (Ok state)
              else None
          end, emit EvGetCurrentCommit w).
Proof.
  cbv [change_detection bind ret store_GetCurrentCommit negb].
  repeat case_match; simplify_eq; congruence.
Qed.

Lemma change_detection_quiet (E : Env) (force : bool) (state : backupState) (w w' : World)
    (r : option (Result backupState)) :
  change_detection E force state w = (r, w') -> quiet w w'.
Proof.
  rewrite change_detection_run. destruct force; intros H; injection H as _ <-.
  - split; [reflexivity|]. exists []. split; [symmetry; apply app_nil_r|reflexivity].
  - split; [reflexivity|]. exists [EvGetCurrentCommit]. split; reflexivity.
Qed.

Lemma tableExistsCheck_run (E : Env) (table : string) (w : World) :
  tableExistsCheck E table w
  = (match store_query E (now w) tableExistsQuery [VString table] with
     | Err _ => false
     | Ok rows => rows_Next rows
     end, emit (EvQuery tableExistsQuery [VString table]) w).
Proof.
  cbv [tableExistsCheck bind ret QueryContext]. repeat case_match; simplify_eq; congruence.
Qed.

Lemma atomic_writes_le (tmp path : string) (l : list Event) :
  tmp <> path ->
  forallb (atomic_event tmp path) l = true ->
  (length (List.filter (writes_to path) l) <= length (List.filter is_rename l))%nat.
Proof.
  intros Hne. induction l as [|e l IH]; cbn [forallb List.filter]; [lia|].
  intros H. apply andb_prop in H as [He Hl]. specialize (IH Hl).
  destruct (is_rename e) eqn:Hren.
  - destruct (writes_to path e); cbn [length]; lia.
  - assert (Hw : writes_to path e = false).
    { destruct e; cbn in He, Hren; try discriminate.
      all: apply String.eqb_eq in He; subst.
      all: unfold writes_to; cbn [is_file_write event_files existsb andb orb];
        try reflexivity.
      all: destruct (String.eqb_spec path tmp) as [Heq|_]; [congruence|reflexivity]. }
    rewrite Hw. exact IH.
Qed.

Lemma saveBackupState_effect (E : Env) (dir : string) (st : backupState)
    (w w' : World) (err : error) :
  saveBackupState E dir st w = (err, w') ->
  exists l,
    trace w' = trace w ++ l
    /\ (length (List.filter (writes_to (state_path dir)) l) <= 1)%nat
    /\ queries l = []
    /\ (err <> None -> files w' !! state_path dir = files w !! state_path dir)
    /\ (err = None ->
        exists data, json_MarshalIndent E st = Ok data
                     /\ files w' = <[state_path dir := data]> (files w)).
Proof.
  unfold saveBackupState. intros H.
  destruct (json_MarshalIndent E st) as [data|e].
  2:{ rewrite ret_run in H. injection H as <- <-. exists [].
      split; [symmetry; apply app_nil_r|]. split; [cbn; lia|]. split; [reflexivity|].
      split; [reflexivity|discriminate]. }
  apply atomicWriteFile_effect in H as (l & Htr & Hev & Hren & Hframe & Hok & Hfail).
  assert (Htmp : temp_path E (state_path dir) w <> state_path dir)
    by (apply temp_path_ne; reflexivity).
  exists l. split; [exact Htr|]. split; [|split; [|split]].
  - pose proof (atomic_writes_le _ _ _ Htmp Hev). lia.
  - apply (touches_only_queries [temp_path E (state_path dir) w; state_path dir]).
    revert Hev. apply forallb_impl, atomic_event_touches.
  - intros Herr. apply Hfail; assumption.
  - intros Herr. exists data. split; [reflexivity|]. apply Hok, Herr.
Qed.

Lemma extends_trans (w1 w2 w3 : World) : extends w1 w2 -> extends w2 w3 -> extends w1 w3.
Proof. intros [l1 H1] [l2 H2]. exists (l1 ++ l2). rewrite H2, H1, app_assoc. reflexivity. Qed.

Lemma untouched_extends (p : string) (w w' : World) : untouched p w w' -> extends w w'.
Proof. intros [_ (l & H & _)]. exists l. exact H. Qed.

Lemma extends_emit (e : Event) (w : World) : extends w (emit e w).
Proof. exists [e]. reflexivity. Qed.

(** *** Export Orchestrator *)

Lemma tableExistsCheck_untouched (E : Env) (p table : string) (w w' : World) (b : bool) :
  tableExistsCheck E table w = (b, w') -> untouched p w w'.
Proof.
  rewrite tableExistsCheck_run. intros H. injection H as _ <-.
  apply untouched_emit. reflexivity.
Qed.

Lemma stored_state_untouched (E : Env) (dir : string) (w w' : World) :
  files w' !! state_path dir = files w !! state_path dir ->
  stored_state E dir (files w') = stored_state E dir (files w).
Proof. unfold stored_state. intros ->. reflexivity. Qed.

Lemma keeps_state_untouched (E : Env) (dir : string) (w w' : World) (r : Result backupState) :
  untouched (state_path dir) w w' -> keeps_state E dir w r w'.
Proof.
  intros [Hf (l & Htr & Hl)]. exists l. split; [exact Htr|]. split; [|split].
  - intros e _. split; [exact Hf|]. apply stored_state_untouched, Hf.
  - rewrite Hl. cbn. lia.
  - intros Hne. congruence.
Qed.

(** A run that resolved its directory either never touches the state
    file, or gets to [saveBackupState] after all six exports returned
    without error, the state file untouched until then. *)
Lemma run_reaches_save (E : Env) (force : bool) (w w1 w' : World) (dir : string)
    (r : Result backupState) :
  runBackupExport E force w = (r, w') ->
  backupDir E w = (Ok dir, w1) ->
  untouched (state_path dir) w w'
  \/ exists state hw w4 st6 w6 w8 st' err,
      exported E dir hw run_order state w4 st6 w6
      /\ untouched (state_path dir) w w6
      /\ untouched (state_path dir) w6 w8
      /\ saveBackupState E dir st' w8 = (err, w')
      /\ r = match err with
             | Some e => Err e
             | None => Ok st'
             end.
Proof.
  intros H Hdir'. apply runBackupExport_inv in H.
  destruct H as [(e & Hdir & _)|(dir0 & w0 & Hdir & H)]; [congruence|].
  rewrite Hdir' in Hdir. injection Hdir as <- <-.
  pose proof (quiet_untouched (state_path dir) _ _ (backupDir_quiet _ _ _ _ Hdir')) as U1.
  destruct H as [(e & Hload & ->)|(state & w2 & Hload & H)].
  { left. eapply untouched_trans; [exact U1|].
    apply quiet_untouched. eapply loadBackupState_quiet; exact Hload. }
  pose proof (quiet_untouched (state_path dir) _ _ (loadBackupState_quiet _ _ _ _ _ Hload)) as U2.
  destruct H as [Hstop|(w3 & hw & w4 & Hchange & Hprobe & Hrun)].
  { left. eapply untouched_trans; [exact U1|].
    eapply untouched_trans; [exact U2|].
    apply quiet_untouched. eapply change_detection_quiet; exact Hstop. }
  pose proof (quiet_untouched (state_path dir) _ _
                (change_detection_quiet _ _ _ _ _ _ Hchange)) as U3.
  pose proof (tableExistsCheck_untouched _ (state_path dir) _ _ _ _ Hprobe) as U4.
  assert (U : untouched (state_path dir) w w4)
    by (eapply untouched_trans; [exact U1|]; eapply untouched_trans; [exact U2|];
        eapply untouched_trans; [exact U3|exact U4]).
  clear U1 U2 U3 U4.
  destruct Hrun as [done ent rest st_k w_k n e st_x w' _ Hdone Hstep
                   |st6 w6 e w' Hall Hcommit
                   |st6 w6 c w7 t w8 err w' Hall Hcommit Hnow Hsave].
  - left. eapply untouched_trans; [exact U|].
    eapply untouched_trans; [eapply exported_untouched; exact Hdone|].
    eapply export_entity_untouched; exact Hstep.
  - left. eapply untouched_trans; [exact U|].
    eapply untouched_trans; [eapply exported_untouched; exact Hall|].
    rewrite store_GetCurrentCommit_run in Hcommit. injection Hcommit as _ <-.
    apply untouched_emit. reflexivity.
  - right. exists state, hw, w4, st6, w6, w8. eexists _, err.
    split; [exact Hall|].
    split; [eapply untouched_trans; [exact U|]; eapply exported_untouched; exact Hall|].
    split; [|split; [exact Hsave|reflexivity]].
    rewrite store_GetCurrentCommit_run in Hcommit. injection Hcommit as _ <-.
    unfold time_Now in Hnow. injection Hnow as _ <-.
    eapply untouched_trans; apply untouched_emit; reflexivity.
Qed.

(** C1. A run that returns an error leaves the state file as it was, byte
    for byte, and so the persisted revision and watermark; in every run the
    state file is the target of at most one call, and when there is one,
    all six entity exports have returned without error before it and the
    state file was untouched until then.  (A run whose directory cannot be
    resolved changes no file at all.) *)
Theorem failed_run_keeps_state (E : Env) (force : bool) (w w' : World)
    (r : Result backupState) :
  runBackupExport E force w = (r, w') ->
  (forall e w1, backupDir E w = (Err e, w1) -> r = Err e /\ files w' = files w)
  /\ (forall dir w1, backupDir E w = (Ok dir, w1) -> keeps_state E dir w r w').
Proof.
  intros H. split.
  - intros e w1 Hdir. pose proof (backupDir_quiet _ _ _ _ Hdir) as [Hf _].
    apply runBackupExport_inv in H.
    destruct H as [(e' & Hdir' & ->)|(dir & w0 & Hdir' & _)]; [|congruence].
    rewrite Hdir in Hdir'. injection Hdir' as <- <-. split; [reflexivity|exact Hf].
  - intros dir w1 Hdir.
    destruct (run_reaches_save _ _ _ _ _ _ _ H Hdir)
      as [U|(state & hw & w4 & st6 & w6 & w8 & st' & err & Hall & U6 & U68 & Hsave & ->)];
      [apply keeps_state_untouched; exact U|].
    pose proof (untouched_trans _ _ _ _ U6 U68) as [Hf8 (l8 & Htr8 & Hl8)].
    apply saveBackupState_effect in Hsave as (l & Htr & Hcount & _ & Hfail & _).
    exists (l8 ++ l). split; [rewrite Htr, Htr8, app_assoc; reflexivity|].
    rewrite List.filter_app, Hl8. cbn [app]. split; [|split; [exact Hcount|]].
    + intros e He. destruct err as [e'|]; [|discriminate He].
      assert (Hf : files w' !! state_path dir = files w !! state_path dir)
        by (rewrite Hfail by discriminate; exact Hf8).
      split; [exact Hf|]. apply stored_state_untouched, Hf.
    + intros _. exists state, hw, w4, st6, w6. split; [exact Hall|]. split; [exact U6|].
      destruct (untouched_extends _ _ _ U68) as [l68 Htr68].
      exists (l68 ++ l). rewrite Htr, Htr68, app_assoc. reflexivity.
Qed.

Lemma exported_starts (E : Env) (dir : string) (hw : bool) (ent : entity)
    (ents : list entity) (st st' : backupState) (w w' : World) :
  exported E dir hw (ent :: ents) st w st' w' ->
  exists l, trace w' = trace w ++ EvQuery (entity_query hw ent) (entity_args hw ent st) :: l.
Proof.
  intros H. inversion H as [|? ? ? ? n st1 w1 ? ? Hstep Hrest]; subst.
  apply export_entity_effect in Hstep as (l1 & Htr1 & _).
  apply exported_untouched, untouched_extends in Hrest as [l2 Htr2].
  exists (l1 ++ l2). rewrite Htr2, Htr1, <- app_assoc. reflexivity.
Qed.

(** Past the probe, the first thing a run does is send the issues query. *)
Lemma run_exports_starts (E : Env) (dir : string) (hw : bool) (state : backupState)
    (w w' : World) (r : Result backupState) :
  run_exports E dir hw state w r w' ->
  exists l, trace w' = trace w ++ EvQuery (issuesQuery hw) [] :: l.
Proof.
  assert (Hmore : forall w1 w2 l1,
             trace w1 = trace w ++ EvQuery (issuesQuery hw) [] :: l1 ->
             extends w1 w2 ->
             exists l, trace w2 = trace w ++ EvQuery (issuesQuery hw) [] :: l).
  { intros w1 w2 l1 H1 [l2 H2]. exists (l1 ++ l2). rewrite H2, H1, <- app_assoc. reflexivity. }
  intros [done ent rest st_k w_k n e st_x w2 Horder Hdone Hstep
         |st6 w6 e w2 Hall Hcommit
         |st6 w6 c w7 t w8 err w2 Hall Hcommit Hnow Hsave].
  - destruct done as [|ent0 done].
    + injection Horder as <- _. inversion Hdone; subst.
      apply export_entity_effect in Hstep as (l & Htr & _). exists l. exact Htr.
    + injection Horder as <- _.
      apply exported_starts in Hdone as [l1 H1].
      eapply Hmore; [exact H1|].
      eapply untouched_extends, export_entity_untouched; exact Hstep.
  - apply exported_starts in Hall as [l1 H1]. eapply Hmore; [exact H1|].
    rewrite store_GetCurrentCommit_run in Hcommit. injection Hcommit as _ <-.
    apply extends_emit.
  - apply exported_starts in Hall as [l1 H1]. eapply Hmore; [exact H1|].
    rewrite store_GetCurrentCommit_run in Hcommit. injection Hcommit as _ <-.
    unfold time_Now in Hnow. injection Hnow as _ <-.
    apply saveBackupState_effect in Hsave as (l & Htr & _).
    eapply extends_trans; [apply extends_emit|].
    eapply extends_trans; [apply extends_emit|]. exists l. exact Htr.
Qed.

(** C3. With [force] unset, the state loaded and the revision query
    answered: when the revision equals the stored [LastDoltCommit] and that
    is not empty, the run returns the loaded state as it is, no file has
    changed and nothing the run did wrote a file or queried a table (it
    resolved the directory, read the state file and asked for the
    revision); when
    the stored [LastDoltCommit] is empty the run does not stop there,
    whatever the store's revision: it goes on to probe for the shadow table
    and to send the issues query. *)
Theorem short_circuit_when_unchanged (E : Env) (w w1 w2 : World) (dir : string)
    (state : backupState) (currentCommit : string) :
  backupDir E w = (Ok dir, w1) ->
  loadBackupState E dir w1 = (Ok state, w2) ->
  store_commit E (now w2) = Ok currentCommit ->
  (currentCommit = LastDoltCommit state -> LastDoltCommit state <> "" ->
   exists w',
     runBackupExport E false w = (Ok state, w')
     /\ files w' = files w
     /\ exists l, trace w' = trace w ++ l /\ forallb quiet_event l = true)
  /\ (LastDoltCommit state = "" ->
      exists hw l,
        trace (runBackupExport E false w).2
        = trace w2 ++ EvGetCurrentCommit
            :: EvQuery tableExistsQuery [VString "wisps"]
            :: EvQuery (issuesQuery hw) [] :: l).
Proof.
  intros Hdir Hload Hcur.
  assert (Hchange : change_detection E false state w2
                    = (if String.eqb currentCommit (LastDoltCommit state)
                          && negb (String.eqb (LastDoltCommit state) "")
                       then Some (Ok state) else None, emit EvGetCurrentCommit w2))
    by (rewrite change_detection_run, Hcur; reflexivity).
  split.
  - intros Heq Hne. exists (emit EvGetCurrentCommit w2).
    rewrite Heq, String.eqb_refl in Hchange.
    destruct (String.eqb_spec (LastDoltCommit state) "") as [Hempty|_]; [contradiction|].
    cbn [andb negb] in Hchange.
    split.
    + unfold runBackupExport. rewrite bind_run, Hdir. cbn [fst snd].
      rewrite bind_run, Hload. cbn [fst snd]. rewrite bind_run, Hchange. reflexivity.
    + apply (quiet_trans w w1), (quiet_trans w1 w2).
      * eapply backupDir_quiet; exact Hdir.
      * eapply loadBackupState_quiet; exact Hload.
      * eapply change_detection_quiet; exact Hchange.
  - intros Hempty. rewrite Hempty, String.eqb_refl, andb_false_r in Hchange.
    destruct (runBackupExport E false w) as [r w'] eqn:Hrun. cbn [snd].
    apply runBackupExport_inv in Hrun.
    destruct Hrun as [(e & Hdir' & _)|(dir' & w1' & Hdir' & Hrun)]; [congruence|].
    rewrite Hdir in Hdir'. injection Hdir' as <- <-.
    destruct Hrun as [(e & Hload' & _)|(state' & w2' & Hload' & Hrun)]; [congruence|].
    rewrite Hload in Hload'. injection Hload' as <- <-.
    destruct Hrun as [Hstop|(w3 & hw & w4 & Hchange' & Hprobe & Hrun)]; [congruence|].
    rewrite Hchange in Hchange'. injection Hchange' as <-.
    rewrite tableExistsCheck_run in Hprobe. injection Hprobe as _ <-.
    apply run_exports_starts in Hrun as [l Htr]. exists hw, l.
    rewrite Htr. cbn [trace emit]. rewrite <- !app_assoc. reflexivity.
Qed.

(** The statements a run sends after the probe: those of the steps it
    reaches, in the order of the source, the issues query always among
    them. *)
Lemma run_exports_queries (E : Env) (dir : string) (hw : bool) (state : backupState)
    (w w' : World) (r : Result backupState) :
  run_exports E dir hw state w r w' ->
  exists done rest,
    run_order = issues :: done ++ rest
    /\ queries (trace w') = queries (trace w) ++ map (entity_query hw) (issues :: done)
    /\ (forall st, r = Ok st -> rest = []).
Proof.
  intros [done ent rest st_k w_k n e st_x w2 Horder Hdone Hstep
         |st6 w6 e w2 Hall Hcommit
         |st6 w6 c w7 t w8 err w2 Hall Hcommit Hnow Hsave].
  - apply exported_queries in Hdone. apply export_entity_queries in Hstep.
    assert (Hq : queries (trace w2)
                 = queries (trace w) ++ map (entity_query hw) (done ++ [ent])).
    { rewrite Hstep, Hdone, map_app, <- app_assoc. reflexivity. }
    destruct done as [|ent0 done].
    + injection Horder as <- <-. exists [], [events; comments; dependencies; labels; config].
      split; [reflexivity|]. split; [exact Hq|discriminate].
    + injection Horder as <- Horder. exists (done ++ [ent]), rest.
      split; [rewrite <- app_assoc; cbn; rewrite <- Horder; reflexivity|].
      split; [exact Hq|discriminate].
  - apply exported_queries in Hall.
    rewrite store_GetCurrentCommit_run in Hcommit. injection Hcommit as _ <-.
    exists [events; comments; dependencies; labels; config], [].
    split; [reflexivity|]. split; [|discriminate].
    rewrite trace_emit, queries_app, Hall. cbn [queries]. rewrite app_nil_r. reflexivity.
  - apply exported_queries in Hall.
    rewrite store_GetCurrentCommit_run in Hcommit. injection Hcommit as _ <-.
    unfold time_Now in Hnow. injection Hnow as _ <-.
    apply saveBackupState_effect in Hsave as (l & Htr & _ & Hq & _).
    exists [events; comments; dependencies; labels; config], [].
    split; [reflexivity|]. split; [|reflexivity].
    rewrite Htr, queries_app, Hq, !trace_emit, !queries_app, Hall. cbn [queries].
    rewrite !app_nil_r. reflexivity.
Qed.

(** *** Backup State Store *)

(** C9. When the state file exists and its content does not unmarshal,
    [loadBackupState] returns an error (the parse error when the read
    itself went well) and never the zero state, and the run that loaded it
    returns that error having done nothing more; the zero state is what a
    missing file gives, and a state loaded from an existing file is the one
    its content unmarshals to. *)
Theorem corrupt_state_file_aborts (E : Env) (dir : string) (w : World)
    (data : list byte) (e : error_value) :
  files w !! state_path dir = Some data ->
  json_Unmarshal E data = Err e ->
  (exists e', loadBackupState E dir w = (Err e', emit (EvReadFile (state_path dir)) w)
              /\ (os_fault E (now w) = None ->
                  e' = Errorf "failed to parse backup state: " e))
  /\ (forall force w0, backupDir E w0 = (Ok dir, w) ->
      exists e', runBackupExport E force w0 = (Err e', emit (EvReadFile (state_path dir)) w))
  /\ (forall w1, files w1 !! state_path dir = None ->
      loadBackupState E dir w1 = (Ok zero_state, emit (EvReadFile (state_path dir)) w1))
  /\ (forall w1 w1' data1 st, files w1 !! state_path dir = Some data1 ->
      loadBackupState E dir w1 = (Ok st, w1') -> json_Unmarshal E data1 = Ok st).
Proof.
  intros Hfile Hparse.
  assert (Hload : exists e', loadBackupState E dir w
                             = (Err e', emit (EvReadFile (state_path dir)) w)
                             /\ (os_fault E (now w) = None ->
                                 e' = Errorf "failed to parse backup state: " e)).
  { rewrite loadBackupState_run, Hfile, Hparse.
    destruct (os_fault E (now w)) as [m|]; eexists; (split; [reflexivity|]);
      [discriminate|reflexivity]. }
  split; [exact Hload|]. split; [|split].
  - intros force w0 Hdir. destruct Hload as (e' & Hload & _). exists e'.
    unfold runBackupExport. rewrite bind_run, Hdir. cbn [fst snd].
    rewrite bind_run, Hload. reflexivity.
  - intros w1 Hnone. rewrite loadBackupState_run, Hnone. reflexivity.
  - intros w1 w1' data1 st Hsome. rewrite loadBackupState_run, Hsome.
    destruct (os_fault E (now w1)); [discriminate|].
    destruct (json_Unmarshal E data1); [|discriminate]. intros H. congruence.
Qed.

(** *** Shadow-table probe *)

(** C10. When the metadata query of the probe fails, [tableExistsCheck]
    returns false and no error, for any table; a run in which this happens
    goes on as without shadow tables: after the probe it sends the issues
    query, and every statement it sends is the primary-only form of a step,
    in the order of the source. *)
Theorem probe_failure_is_no_shadow (E : Env) (force : bool) (w w1 w2 w3 : World)
    (dir : string) (state : backupState) (e : error_value) :
  backupDir E w = (Ok dir, w1) ->
  loadBackupState E dir w1 = (Ok state, w2) ->
  change_detection E force state w2 = (None, w3) ->
  store_query E (now w3) tableExistsQuery [VString "wisps"] = Err e ->
  (forall table w0 e0,
      store_query E (now w0) tableExistsQuery [VString table] = Err e0 ->
      tableExistsCheck E table w0 = (false, emit (EvQuery tableExistsQuery [VString table]) w0))
  /\ exists done rest,
      run_order = issues :: done ++ rest
      /\ queries (trace (runBackupExport E force w).2)
         = queries (trace w3) ++ tableExistsQuery :: map (entity_query false) (issues :: done).
Proof.
  intros Hdir Hload Hchange Hq.
  assert (Hprobe : forall table w0 e0,
             store_query E (now w0) tableExistsQuery [VString table] = Err e0 ->
             tableExistsCheck E table w0
             = (false, emit (EvQuery tableExistsQuery [VString table]) w0))
    by (intros table w0 e0 H; rewrite tableExistsCheck_run, H; reflexivity).
  split; [exact Hprobe|].
  destruct (runBackupExport E force w) as [r w'] eqn:Hrun. cbn [snd].
  apply runBackupExport_inv in Hrun.
  destruct Hrun as [(e' & Hdir' & _)|(dir' & w1' & Hdir' & Hrun)]; [congruence|].
  rewrite Hdir in Hdir'. injection Hdir' as <- <-.
  destruct Hrun as [(e' & Hload' & _)|(state' & w2' & Hload' & Hrun)]; [congruence|].
  rewrite Hload in Hload'. injection Hload' as <- <-.
  destruct Hrun as [Hstop|(w3' & hw & w4 & Hchange' & Hprobe' & Hrun)]; [congruence|].
  rewrite Hchange in Hchange'. injection Hchange' as <-.
  rewrite (Hprobe _ _ _ Hq) in Hprobe'. injection Hprobe' as <- <-.
  apply run_exports_queries in Hrun as (done & rest & Horder & Hqs & _).
  exists done, rest. split; [exact Horder|].
  rewrite Hqs, trace_emit, queries_app, <- app_assoc. reflexivity.
Qed.

(** *** Order of the exports and counts *)

Lemma export_entity_table_inv (E : Env) (dir : string) (hw : bool) (ent : entity)
    (st st1 : backupState) (w w' : World) (n : Z) (err : error) :
  ent <> events ->
  export_entity E dir hw ent st w = ((n, err, st1), w') ->
  exportTable E dir (entity_file ent) (entity_query hw ent) w = ((n, err), w')
  /\ st1 = count_update ent n st.
Proof.
  intros Hent H. destruct ent; try congruence; unfold export_entity in H;
    rewrite bind_run in H;
    match type of H with
    | context [exportTable ?e ?d ?f ?q ?w0] =>
        destruct (exportTable e d f q w0) as [[n' err'] w1]
    end;
    cbn [fst snd] in H; rewrite ret_run in H; injection H as <- <- <- <-;
    split; reflexivity.
Qed.

Lemma export_entity_events_inv (E : Env) (dir : string) (hw : bool)
    (st st1 : backupState) (w w' : World) (n : Z) (err : error) :
  export_entity E dir hw events st w = ((n, err, st1), w') ->
  exists st2,
    exportEventsIncremental E dir st hw w = ((n, err, st2), w')
    /\ st1 = count_update events n st2.
Proof.
  unfold export_entity. rewrite bind_run.
  destruct (exportEventsIncremental E dir st hw w) as [[[n' err'] st2] w1].
  cbn [fst snd]. rewrite ret_run. intros H. injection H as <- <- <- <-.
  exists st2. split; reflexivity.
Qed.

(** A successful events export changes nothing of the state but
    [LastEventID]. *)
Lemma exportEventsIncremental_Counts (E : Env) (dir : string) (hw : bool)
    (st st2 : backupState) (w w' : World) (n : Z) (err : error) :
  exportEventsIncremental E dir st hw w = ((n, err, st2), w') ->
  Counts st2 = Counts st /\ LastDoltCommit st2 = LastDoltCommit st
  /\ Timestamp st2 = Timestamp st.
Proof.
  intros H. apply exportEventsIncremental_effect in H as (l & _ & _ & _ & Hfail & Hok).
  destruct err as [e|].
  - rewrite Hfail by discriminate. auto.
  - destruct (Hok eq_refl) as (rows & cols & _ & _ & _ & _ & -> & _).
    destruct (n =? 0)%Z; auto.
Qed.

(** C7, as amended.  A run that completes performs the exports in the
    order issues, events, comments, dependencies, labels, config: each call
    starts in the world the one before it left, so the incremental events
    export comes second, before four of the five full snapshots, and the
    statements reach the store in that order.  The count of events becomes
    the stored count plus the newly exported count (in Go's [int]); the
    count of every full-snapshot entity becomes the count its export
    returned. *)
Theorem exports_in_source_order (E : Env) (force : bool) (w w1 w2 w3 w' : World)
    (dir : string) (state st' : backupState) :
  runBackupExport E force w = (Ok st', w') ->
  backupDir E w = (Ok dir, w1) ->
  loadBackupState E dir w1 = (Ok state, w2) ->
  change_detection E force state w2 = (None, w3) ->
  exists hw w4 n1 w5 n2 st2 w6 n3 w7 n4 w8 n5 w9 n6 w10,
    tableExistsCheck E "wisps" w3 = (hw, w4)
    /\ exportTable E dir "issues.jsonl" (issuesQuery hw) w4 = ((n1, None), w5)
    /\ exportEventsIncremental E dir (set_Counts (set_Issues n1 (Counts state)) state) hw w5
       = ((n2, None, st2), w6)
    /\ exportTable E dir "comments.jsonl" (commentsQuery hw) w6 = ((n3, None), w7)
    /\ exportTable E dir "dependencies.jsonl" (depsQuery hw) w7 = ((n4, None), w8)
    /\ exportTable E dir "labels.jsonl" (labelsQuery hw) w8 = ((n5, None), w9)
    /\ exportTable E dir "config.jsonl" configQuery w9 = ((n6, None), w10)
    /\ extends w10 w'
    /\ Counts st'
       = {| Issues := n1;
            Events := wrap_int (Events (Counts state) + n2);
            Comments := n3;
            Dependencies := n4;
            Labels := n5;
            Config := n6 |}
    /\ queries (trace w')
       = queries (trace w3)
         ++ [tableExistsQuery; issuesQuery hw; eventsQuery hw; commentsQuery hw;
             depsQuery hw; labelsQuery hw; configQuery].
Proof.
  intros Hrun Hdir Hload Hchange.
  apply runBackupExport_inv in Hrun.
  destruct Hrun as [(e' & Hdir' & _)|(dir' & w1' & Hdir' & Hrun)]; [congruence|].
  rewrite Hdir in Hdir'. injection Hdir' as <- <-.
  destruct Hrun as [(e' & Hload' & _)|(state' & w2' & Hload' & Hrun)]; [congruence|].
  rewrite Hload in Hload'. injection Hload' as <- <-.
  destruct Hrun as [Hstop|(w3' & hw & w4 & Hchange' & Hprobe & Hrun)]; [congruence|].
  rewrite Hchange in Hchange'. injection Hchange' as <-.
  pose proof (run_exports_queries _ _ _ _ _ _ _ Hrun) as (done & rest & Horder & Hqs & Hrest).
  specialize (Hrest _ eq_refl). subst rest. rewrite app_nil_r in Horder.
  injection Horder as <-.
  inversion Hrun as [| |st6 w6 c w7 t w8 err w'' Hall Hcommit Hnow Hsave Hr Hw]; subst.
  destruct err as [e|]; [discriminate Hr|]. injection Hr as <-.
  inversion Hall as [|? ? ? ? n1 s1 v1 ? ? S1 R1]; subst.
  inversion R1 as [|? ? ? ? n2 s2 v2 ? ? S2 R2]; subst.
  inversion R2 as [|? ? ? ? n3 s3 v3 ? ? S3 R3]; subst.
  inversion R3 as [|? ? ? ? n4 s4 v4 ? ? S4 R4]; subst.
  inversion R4 as [|? ? ? ? n5 s5 v5 ? ? S5 R5]; subst.
  inversion R5 as [|? ? ? ? n6 s6 v6 ? ? S6 R6]; subst.
  inversion R6; subst.
  apply export_entity_table_inv in S1 as [S1 ->]; [|discriminate].
  apply export_entity_events_inv in S2 as (st2 & S2 & ->).
  apply export_entity_table_inv in S3 as [S3 ->]; [|discriminate].
  apply export_entity_table_inv in S4 as [S4 ->]; [|discriminate].
  apply export_entity_table_inv in S5 as [S5 ->]; [|discriminate].
  apply export_entity_table_inv in S6 as [S6 ->]; [|discriminate].
  exists hw, w4, n1, v1, n2, st2, v2, n3, v3, n4, v4, n5, v5, n6, w6.
  repeat (split; [assumption|]).
  split; [|split].
  - rewrite store_GetCurrentCommit_run in Hcommit. injection Hcommit as _ <-.
    unfold time_Now in Hnow. injection Hnow as _ <-.
    apply saveBackupState_effect in Hsave as (l & Htr & _).
    eapply extends_trans; [apply extends_emit|].
    eapply extends_trans; [apply extends_emit|]. exists l. exact Htr.
  - apply exportEventsIncremental_Counts in S2 as (HC & _). cbn. rewrite HC. reflexivity.
  - rewrite Hqs. rewrite tableExistsCheck_run in Hprobe. injection Hprobe as _ <-.
    rewrite trace_emit, queries_app, <- app_assoc. reflexivity.
Qed.

(** *** Shadow merge *)

(** C8, as amended.  When the store answers the merged statement of a
    full-snapshot entity as the statement asks, a successful [exportTable]
    writes a file that lists every row of the primary and of the shadow
    table once, ascending by key, in the order the store returned them;
    the same holds for the lines a successful incremental export writes or
    appends.  The order of rows with equal keys is the store's. *)
Theorem merged_output_in_store_order (E : Env) (dir : string) (w w' : World)
    (key : list value -> Z) (primary shadow : list (list value))
    (rows : Rows) (cols : list string) (n : Z) :
  rows_Columns rows = Ok cols ->
  answers_union key primary shadow rows ->
  exists result,
    rows_steps rows = map ScanOk result
    /\ Permutation result (primary ++ shadow)
    /\ Sorted (fun a b => (key a <= key b)%Z) result
    /\ (forall filename query,
        store_query E (now w) query [] = Ok rows ->
        exportTable E dir filename query w = ((n, None), w') ->
        n = Z.of_nat (length primary + length shadow)
        /\ files w' !! filepath_Join dir filename
           = Some (rows_lines E cols (map ScanOk result)))
    /\ (forall hw st st',
        store_query E (now w) (eventsQuery hw) (eventsArgs hw st) = Ok rows ->
        exportEventsIncremental E dir st hw w = ((n, None, st'), w') ->
        n = Z.of_nat (length primary + length shadow)
        /\ (n <> 0%Z ->
            files w' !! events_path dir
            = Some ((if (LastEventID st =? 0)%Z then []
                     else default [] (files w !! events_path dir))
                    ++ rows_lines E cols (map ScanOk result)))).
Proof.
  intros Hcols (Herr & result & Hsteps & Hperm & Hsorted).
  exists result. split; [exact Hsteps|]. split; [exact Hperm|]. split; [exact Hsorted|].
  assert (Hlen : length (rows_steps rows) = (length primary + length shadow)%nat).
  { rewrite Hsteps, length_map, (Permutation_length Hperm), length_app. reflexivity. }
  split.
  - intros filename query Hq Hrun.
    pose proof (exportTable_run E dir filename query w rows cols Hq Hcols) as Hcases.
    cbv zeta in Hcases. rewrite Herr in Hcases. cbn [no_error] in Hcases.
    rewrite andb_true_r in Hcases.
    destruct (forallb (row_ok E cols) (rows_steps rows)).
    + destruct (atomicWriteFile E (filepath_Join dir filename)
                  (rows_lines E cols (rows_steps rows)) (emit (EvQuery query []) w))
        as [err w''] eqn:Hw.
      rewrite Hrun in Hcases. injection Hcases as -> <- <-.
      apply atomicWriteFile_effect in Hw as (l & _ & _ & _ & _ & Hok & _).
      split; [rewrite Hlen; reflexivity|].
      rewrite (Hok eq_refl), lookup_insert_eq, Hsteps. reflexivity.
    + destruct Hcases as (e & Hrun'). congruence.
  - intros hw st st' Hq Hrun.
    apply exportEventsIncremental_effect in Hrun as (l & _ & _ & _ & _ & Hok).
    destruct (Hok eq_refl) as (rows' & cols' & Hq' & Hcols' & _ & Hn & _ & Hfile).
    rewrite Hq in Hq'. injection Hq' as <-.
    rewrite Hcols in Hcols'. injection Hcols' as <-.
    split; [rewrite Hn, Hlen; reflexivity|].
    intros Hne. rewrite (Hfile Hne), Hsteps. reflexivity.
Qed.

(** *** Watermark *)

Lemma max_id_ge (E : Env) (cols : list string) (steps : list RowStep) (m : Z) :
  (m <= max_id E cols steps m)%Z.
Proof.
  revert m. induction steps as [|step steps IH]; intros m; cbn [max_id fold_left]; [lia|].
  destruct (row_id E cols step) as [id|]; [|apply IH].
  etransitivity; [|apply IH]. lia.
Qed.

Lemma max_id_upper (E : Env) (cols : list string) (steps : list RowStep) (m id : Z) :
  id ∈ observed_ids E cols steps -> (id <= max_id E cols steps m)%Z.
Proof.
  revert m. induction steps as [|step steps IH]; intros m Hin;
    [apply elem_of_nil in Hin; contradiction|].
  unfold observed_ids in Hin. cbn [omap list_omap] in Hin. cbn [max_id fold_left].
  destruct (row_id E cols step) as [id'|]; [|apply IH; exact Hin].
  apply elem_of_cons in Hin as [->|Hin]; [|apply IH; exact Hin].
  etransitivity; [|apply max_id_ge]. lia.
Qed.

Lemma max_id_in (E : Env) (cols : list string) (steps : list RowStep) (m : Z) :
  max_id E cols steps m = m \/ max_id E cols steps m ∈ observed_ids E cols steps.
Proof.
  revert m. induction steps as [|step steps IH]; intros m; [left; reflexivity|].
  unfold observed_ids. cbn [omap list_omap max_id fold_left].
  destruct (row_id E cols step) as [id|]; [|apply IH].
  destruct (IH (Z.max m id)) as [Heq|Hin].
  - unfold max_id in Heq. rewrite Heq.
    destruct (Z.max_spec m id) as [[_ ->]|[_ ->]]; [right; apply list_elem_of_here|left; reflexivity].
  - right. apply list_elem_of_further. exact Hin.
Qed.




Lemma loadBackupState_stored (E : Env) (dir : string) (w w' : World) (state : backupState) :
  loadBackupState E dir w = (Ok state, w') -> stored_state E dir (files w) = Ok state.
Proof.
  rewrite loadBackupState_run. unfold stored_state. intros H. injection H as H _.
  destruct (files w !! state_path dir) as [data|]; [|exact H].
  destruct (os_fault E (now w)); [discriminate H|].
  destruct (json_Unmarshal E data); [exact H|discriminate H].
Qed.





(** *** The concrete environment meets the assumptions *)

Lemma demo_bytes_pos (p : positive) : Demo.bytes_pos (Demo.pos_bytes p) = Some p.
Proof. induction p as [p IH|p IH|]; cbn; rewrite ?IH; reflexivity. Qed.

Lemma demo_round_trip : json_round_trip Demo.env.
Proof.
  intros st data H. cbn in H. unfold Demo.MarshalIndent in H. injection H as <-.
  cbn. unfold Demo.Unmarshal. rewrite demo_bytes_pos, decode_encode. reflexivity.
Qed.





(** *** Witnesses *)

Lemma failed_run_keeps_state_witness :
  let E := Demo.failing_at 61 Demo.env in
  let w := Demo.after_first_run in
  (runBackupExport E true w).1
  = Err (ErrMsg "backup comments: failed to create temp file: input/output error")
  /\ keeps_state E Demo.dir w (runBackupExport E true w).1 (runBackupExport E true w).2.
Proof.
  intros E w. split; [vm_compute; reflexivity|].
  destruct (failed_run_keeps_state E true w (runBackupExport E true w).2
              (runBackupExport E true w).1) as [_ H].
  - destruct (runBackupExport E true w); reflexivity.
  - apply (H Demo.dir (backupDir E w).2). vm_compute. reflexivity.
Defined.


Lemma short_circuit_when_unchanged_witness :
  exists w',
    runBackupExport Demo.env false Demo.after_first_run = (Ok Demo.first_state, w')
    /\ files w' = files Demo.after_first_run
    /\ exists l, trace w' = trace Demo.after_first_run ++ l /\ forallb quiet_event l = true.
Proof.
  pose (w := Demo.after_first_run).
  apply (proj1 (short_circuit_when_unchanged Demo.env w (backupDir Demo.env w).2
                  (loadBackupState Demo.env Demo.dir (backupDir Demo.env w).2).2
                  Demo.dir Demo.first_state "c1a2b3c4d5"
                  ltac:(vm_compute; reflexivity) ltac:(vm_compute; reflexivity)
                  ltac:(vm_compute; reflexivity))).
  - vm_compute. reflexivity.
  - vm_compute. discriminate.
Defined.

Lemma exportTable_all_or_nothing_witness :
  (exists w',
      exportTable Demo.env Demo.dir "issues.jsonl" (issuesQuery false) Demo.fresh
      = ((2%Z, None), w')
      /\ files w' !! filepath_Join Demo.dir "issues.jsonl"
         = Some (rows_lines Demo.env ["id"; "title"] (rows_steps Demo.two_issues)))
  /\ (exists e w',
      exportTable Demo.bad_row_env Demo.dir "issues.jsonl" (issuesQuery false) Demo.fresh
      = ((0%Z, Some e), w')
      /\ files w' = files Demo.fresh
      /\ trace w' = trace Demo.fresh ++ [EvQuery (issuesQuery false) []]).
Proof.
  split.
  - pose proof (exportTable_all_or_nothing Demo.env Demo.dir "issues.jsonl"
                  (issuesQuery false) Demo.fresh Demo.two_issues
                  ["id"; "title"] eq_refl eq_refl) as H.
    cbv zeta in H.
    match type of H with
    | if ?b then _ else _ => replace b with true in H by (vm_compute; reflexivity)
    end.
    destruct H as (err & w' & Hwrite & Hrun & Hok & _).
    assert (Herr : err = None) by (vm_compute in Hwrite; congruence).
    subst err. exists w'. split; [exact Hrun|].
    rewrite (Hok eq_refl). apply lookup_insert_eq.
  - pose proof (exportTable_all_or_nothing Demo.bad_row_env Demo.dir "issues.jsonl"
                  (issuesQuery false) Demo.fresh Demo.bad_row ["id"] eq_refl eq_refl) as H.
    cbv zeta in H.
    match type of H with
    | if ?b then _ else _ => replace b with false in H by (vm_compute; reflexivity)
    end.
    exact H.
Defined.

Lemma exportEventsIncremental_no_rows_witness :
  exists w',
    exportEventsIncremental Demo.env Demo.dir Demo.first_state false Demo.after_first_run
    = ((0%Z, None, Demo.first_state), w')
    /\ files w' = files Demo.after_first_run
    /\ trace w' = trace Demo.after_first_run
                  ++ [EvQuery (eventsQuery false) (eventsArgs false Demo.first_state)].
Proof.
  apply (exportEventsIncremental_no_rows Demo.env Demo.dir Demo.first_state false
           Demo.after_first_run (Demo.table ["id"; "event_type"] []) ["id"; "event_type"]).
  - vm_compute. reflexivity.
  - reflexivity.
  - reflexivity.
  - reflexivity.
Defined.

Lemma corrupt_state_file_aborts_witness :
  let w := (backupDir Demo.env Demo.corrupt).2 in
  exists e',
    runBackupExport Demo.env false Demo.corrupt
    = (Err e', emit (EvReadFile (state_path Demo.dir)) w).
Proof.
  intros w.
  destruct (corrupt_state_file_aborts Demo.env Demo.dir w [x7b] (ErrMsg "invalid character"))
    as (_ & H & _).
  - vm_compute. reflexivity.
  - reflexivity.
  - apply (H false Demo.corrupt). vm_compute. reflexivity.
Defined.

Lemma probe_failure_is_no_shadow_witness :
  let E := Demo.no_metadata_env in
  exists done rest,
    run_order = issues :: done ++ rest
    /\ queries (trace (runBackupExport E false Demo.fresh).2)
       = tableExistsQuery :: map (entity_query false) (issues :: done).
Proof.
  intros E.
  pose (w1 := (backupDir E Demo.fresh).2).
  pose (w2 := (loadBackupState E Demo.dir w1).2).
  pose (w3 := (change_detection E false zero_state w2).2).
  destruct (probe_failure_is_no_shadow E false Demo.fresh w1 w2 w3 Demo.dir zero_state
              (ErrMsg "connection refused")
              ltac:(vm_compute; reflexivity) ltac:(vm_compute; reflexivity)
              ltac:(vm_compute; reflexivity) ltac:(vm_compute; reflexivity))
    as (_ & done & rest & Horder & Hq).
  exists done, rest. split; [exact Horder|exact Hq].
Defined.

Lemma exports_in_source_order_witness :
  exists hw,
    queries (trace Demo.after_first_run)
    = [tableExistsQuery; issuesQuery hw; eventsQuery hw; commentsQuery hw;
       depsQuery hw; labelsQuery hw; configQuery]
    /\ Counts Demo.first_state
       = {| Issues := 2; Events := 3; Comments := 0; Dependencies := 0;
            Labels := 0; Config := 1 |}.
Proof.
  pose (w1 := (backupDir Demo.env Demo.fresh).2).
  pose (w2 := (loadBackupState Demo.env Demo.dir w1).2).
  pose (w3 := (change_detection Demo.env false zero_state w2).2).
  destruct (exports_in_source_order Demo.env false Demo.fresh w1 w2 w3
              Demo.after_first_run Demo.dir zero_state Demo.first_state
              ltac:(vm_compute; reflexivity) ltac:(vm_compute; reflexivity)
              ltac:(vm_compute; reflexivity) ltac:(vm_compute; reflexivity))
    as (hw & w4 & n1 & w5 & n2 & st2 & w6 & n3 & w7 & n4 & w8 & n5 & w9 & n6 & w10
        & _ & _ & _ & _ & _ & _ & _ & _ & _ & Hq).
  exists hw. split; [exact Hq|]. vm_compute. reflexivity.
Defined.

(** *** Counterexamples *)

(** C7 as stated fails: in a run of the concrete environment that
    completes, the comments, dependencies, labels and config statements are
    sent after the events statement. *)
Lemma snapshots_not_all_before_events :
  (runBackupExport Demo.env false Demo.fresh).1 = Ok Demo.first_state
  /\ queries (trace (runBackupExport Demo.env false Demo.fresh).2)
     = [tableExistsQuery; issuesQuery false; eventsQuery false; commentsQuery false;
        depsQuery false; labelsQuery false; configQuery]
  /\ snapshots_before_events false
       (queries (trace (runBackupExport Demo.env false Demo.fresh).2)) = false.
Proof. vm_compute. auto. Qed.

Lemma demo_answers_union :
  answers_union first_id Demo.primary_rows Demo.shadow_rows
    (Demo.table ["id"; "source"] Demo.shadow_first).
Proof.
  split; [reflexivity|]. exists Demo.shadow_first. split; [reflexivity|]. split.
  - unfold Demo.shadow_first, Demo.primary_rows, Demo.shadow_rows. cbn [app].
    apply perm_skip.
    apply (Permutation_cons_app
             [[VInt64 3; VString "primary"]; [VInt64 5; VString "primary"]]
             [[VInt64 3; VString "shadow"]; [VInt64 4; VString "shadow"]]).
    apply (Permutation_cons_app
             [[VInt64 3; VString "primary"]; [VInt64 5; VString "primary"]]
             [[VInt64 4; VString "shadow"]]).
    cbn [app]. apply perm_skip. apply perm_swap.
  - unfold Demo.shadow_first. repeat constructor; cbn; lia.
Qed.

(** C8 as stated fails: the store below answers the merged issues
    statement as the statement asks, with the shadow row before the primary
    row where both have id 3, and that is the order of the file. *)
Lemma ties_follow_the_store :
  ~ primary_first_on_ties Demo.shadow_env Demo.dir "issues.jsonl" (issuesQuery true)
      Demo.fresh first_id Demo.primary_rows Demo.shadow_rows.
Proof.
  intros H.
  specialize (H (Demo.table ["id"; "source"] Demo.shadow_first) ["id"; "source"] 6%Z
                (exportTable Demo.shadow_env Demo.dir "issues.jsonl" (issuesQuery true)
                   Demo.fresh).2
                eq_refl eq_refl demo_answers_union ltac:(vm_compute; reflexivity)).
  vm_compute in H. discriminate H.
Qed.

Lemma merged_output_in_store_order_witness :
  exists result,
    Permutation result (Demo.primary_rows ++ Demo.shadow_rows)
    /\ Sorted (fun a b => (first_id a <= first_id b)%Z) result
    /\ files (exportTable Demo.shadow_env Demo.dir "issues.jsonl" (issuesQuery true)
                Demo.fresh).2 !! filepath_Join Demo.dir "issues.jsonl"
       = Some (rows_lines Demo.shadow_env ["id"; "source"] (map ScanOk result)).
Proof.
  destruct (merged_output_in_store_order Demo.shadow_env Demo.dir Demo.fresh
              (exportTable Demo.shadow_env Demo.dir "issues.jsonl" (issuesQuery true)
                 Demo.fresh).2
              first_id Demo.primary_rows Demo.shadow_rows
              (Demo.table ["id"; "source"] Demo.shadow_first) ["id"; "source"] 6%Z
              eq_refl demo_answers_union)
    as (result & _ & Hperm & Hsorted & Htable & _).
  exists result. split; [exact Hperm|]. split; [exact Hsorted|].
  apply (Htable "issues.jsonl" (issuesQuery true)); vm_compute; reflexivity.
Defined.

(** ** Further properties of the code *)

(** *** More on the Atomic File Writer *)

(** X1. [atomicWriteFile] replaces or leaves: when it returns nil the
    files are those from before with the target holding exactly the
    payload; when it returns an error the target and every file but the
    temp file are as they were. *)
Theorem atomicWriteFile_replaces_or_leaves (E : Env) (path : string) (data : list byte)
    (w w' : World) (err : error) :
  atomicWriteFile E path data w = (err, w') ->
  temp_path E path w <> path ->
  (err = None -> files w' = <[path := data]> (files w))
  /\ (err <> None ->
      forall p, p <> temp_path E path w -> files w' !! p = files w !! p).
Proof.
  intros H Hne.
  apply atomicWriteFile_effect in H as (l & _ & _ & _ & Hframe & Hok & Hfail).
  split; [exact Hok|]. intros Herr p Hp.
  destruct (decide (p = path)) as [->|Hpath].
  - apply Hfail; assumption.
  - apply Hframe; assumption.
Qed.

(** X2. The calls of a successful [atomicWriteFile], in order: create the
    temp file, write the whole payload to it, sync it, close it, rename it
    onto the target; nothing else.  A failed call begins by the attempt to
    create the temp file and, when it went on after that, its last call is
    the removal of the temp file. *)
Theorem atomicWriteFile_call_order (E : Env) (path : string) (data : list byte)
    (w w' : World) (err : error) :
  atomicWriteFile E path data w = (err, w') ->
  let tmp := temp_path E path w in
  (err = None ->
   trace w' = trace w ++ [EvCreateTemp tmp; EvWrite tmp data; EvSync tmp; EvClose tmp;
                          EvRename tmp path])
  /\ (err <> None ->
      exists l, trace w' = trace w ++ EvCreateTemp tmp :: l
                /\ (l = [] \/ exists l0, l = l0 ++ [EvRemove tmp])).
Proof.
  intros H. cbv zeta. unfold temp_path. revert H.
  cbv [atomicWriteFile bind ret os_CreateTemp file_Write file_Sync file_Close
       os_Rename os_Remove fault_error].
  generalize (filepath_Join (filepath_Dir path)
                (temp_name ".backup-tmp-*" (os_random E (now w)))).
  intros tmp H.
  repeat case_match; simplify_eq.
  all: cbn [trace files emit with_files]; rewrite <- ?app_assoc; cbn [app].
  all: split; [intros Herr; try discriminate Herr|intros Herr; try congruence].
  all: try (eexists; split; [reflexivity|];
            first [left; reflexivity
                  |right;
                   match goal with
                   | |- exists l0, ?l = _ => exists (removelast l); reflexivity
                   end]).
  all: try reflexivity.
  all: exfalso; cbn [files emit with_files] in *; simplify_map_eq.
Qed.

(** X3. When none of its five calls fails and the temp name is free,
    [atomicWriteFile] returns nil. *)
Theorem atomicWriteFile_succeeds (E : Env) (path : string) (data : list byte) (w : World) :
  (forall k, (k < 5)%nat -> os_fault E (now w + k) = None) ->
  files w !! temp_path E path w = None ->
  (atomicWriteFile E path data w).1 = None
  /\ files (atomicWriteFile E path data w).2 = <[path := data]> (files w).
Proof.
  intros Hok Hfree.
  assert (H0 : os_fault E (now w) = None) by (rewrite <- (Hok 0%nat) by lia; f_equal; lia).
  assert (H1 : os_fault E (S (now w)) = None) by (rewrite <- (Hok 1%nat) by lia; f_equal; lia).
  assert (H2 : os_fault E (S (S (now w))) = None)
    by (rewrite <- (Hok 2%nat) by lia; f_equal; lia).
  assert (H3 : os_fault E (S (S (S (now w)))) = None)
    by (rewrite <- (Hok 3%nat) by lia; f_equal; lia).
  assert (H4 : os_fault E (S (S (S (S (now w))))) = None)
    by (rewrite <- (Hok 4%nat) by lia; f_equal; lia).
  destruct (atomicWriteFile E path data w) as [err w'] eqn:Hrun. cbn [fst snd].
  assert (Herr : err = None).
  { revert Hrun. unfold temp_path in Hfree.
    cbv [atomicWriteFile bind ret os_CreateTemp file_Write file_Sync file_Close
         os_Rename os_Remove fault_error].
    rewrite H0, Hfree.
    repeat first [ rewrite now_emit | rewrite now_with_files
                 | rewrite H1 | rewrite H2 | rewrite H3 | rewrite H4
                 | progress cbv beta iota
                 | progress cbn [files emit with_files]
                 | rewrite lookup_alter_eq | rewrite lookup_insert_eq
                 | progress cbn [fmap option_fmap option_map] ].
    intros H. congruence. }
  split; [exact Herr|].
  apply atomicWriteFile_effect in Hrun as (l & _ & _ & _ & _ & Hfiles & _).
  apply Hfiles, Herr.
Qed.

(** *** More on the Backup State Store *)

(** X4. What [saveBackupState] saved, [loadBackupState] loads: after a save
    that returned nil, a load from any world whose state file has the saved
    content returns the saved state, provided the read does not fail and
    [json.Unmarshal] reads back what [json.MarshalIndent] wrote.  A state
    that does not marshal is an error before any file call. *)
Theorem save_then_load (E : Env) (dir : string) (st : backupState) (w w1 : World) :
  json_round_trip E ->
  saveBackupState E dir st w = (None, w1) ->
  (forall w2,
      files w2 !! state_path dir = files w1 !! state_path dir ->
      os_fault E (now w2) = None ->
      loadBackupState E dir w2 = (Ok st, emit (EvReadFile (state_path dir)) w2))
  /\ (forall p, p <> state_path dir -> files w1 !! p = files w !! p)
  /\ (forall st0 e w0, json_MarshalIndent E st0 = Err e ->
      saveBackupState E dir st0 w0
      = (Some (Errorf "failed to marshal backup state: " e), w0)).
Proof.
  intros Hjson Hsave. split; [|split].
  - intros w2 Hsame Hread.
    apply saveBackupState_effect in Hsave as (l & _ & _ & _ & _ & Hok).
    destruct (Hok eq_refl) as (data & Hmarshal & Hfiles).
    rewrite loadBackupState_run, Hsame, Hfiles, lookup_insert_eq, Hread,
      (Hjson _ _ Hmarshal).
    reflexivity.
  - intros p Hp.
    apply saveBackupState_effect in Hsave as (l & _ & _ & _ & _ & Hok).
    destruct (Hok eq_refl) as (data & _ & ->). apply lookup_insert_ne. congruence.
  - intros st0 e w0 Hfail. unfold saveBackupState. rewrite Hfail. reflexivity.
Qed.

(** *** [truncateHash] *)

Lemma substring_0_length (n : nat) (s : string) :
  String.length (substring 0 n s) = Nat.min n (String.length s).
Proof.
  revert s. induction n as [|n IH]; intros s; destruct s as [|c s]; cbn; try reflexivity.
  rewrite IH. reflexivity.
Qed.

Lemma substring_0_prefix (n : nat) (s : string) : String.prefix (substring 0 n s) s = true.
Proof.
  revert s. induction n as [|n IH]; intros s; destruct s as [|c s]; cbn; try reflexivity.
  destruct (ascii_dec c c); [apply IH|contradiction].
Qed.

Lemma prefix_refl (s : string) : String.prefix s s = true.
Proof.
  induction s as [|c s IH]; cbn; [reflexivity|].
  destruct (ascii_dec c c); [exact IH|contradiction].
Qed.

(** X5. [truncateHash] returns the first 8 characters of a hash and the
    whole hash when it has no more than 8: the result is a prefix of the
    hash of length [min 8 (len h)]. *)
Theorem truncateHash_prefix (h : string) :
  String.length (truncateHash h) = Nat.min 8 (String.length h)
  /\ String.prefix (truncateHash h) h = true
  /\ ((String.length h <= 8)%nat <-> truncateHash h = h).
Proof.
  unfold truncateHash. destruct (Nat.ltb_spec 8 (String.length h)) as [Hlong|Hshort].
  - split; [apply substring_0_length|]. split; [apply substring_0_prefix|].
    split; [lia|]. intros Heq.
    pose proof (substring_0_length 8 h) as Hlen. rewrite Heq in Hlen. lia.
  - split; [lia|]. split; [apply prefix_refl|]. split; auto.
Qed.

(** *** Row Normalizer and rows *)

(** X6. Normalizing twice is normalizing once. *)
Theorem normalizeValue_idempotent (E : Env) (v : value) :
  normalizeValue E (normalizeValue E v) = normalizeValue E v.
Proof. destruct v; cbn; try reflexivity. destruct (IsZero t); reflexivity. Qed.

Lemma build_row_lookup_other (E : Env) (cols : list string) (values : list value)
    (row : gmap string value) (col : string) :
  col ∉ cols -> build_row E cols values row !! col = row !! col.
Proof.
  revert values row. induction cols as [|c cols IH]; intros values row Hnot; [reflexivity|].
  cbn [build_row]. rewrite IH by (intros Hin; apply Hnot; right; exact Hin).
  apply lookup_insert_ne. intros ->. apply Hnot. left.
Qed.

Lemma build_row_lookup (E : Env) (cols : list string) (values : list value)
    (row : gmap string value) (i : nat) (col : string) :
  NoDup cols -> cols !! i = Some col ->
  build_row E cols values row !! col
  = Some (normalizeValue E (default VNil (values !! i))).
Proof.
  revert values row i. induction cols as [|c cols IH]; intros values row i Hnd Hi;
    [discriminate Hi|].
  inversion Hnd as [|? ? Hc Hnd']; subst. cbn [build_row]. destruct i as [|i].
  - injection Hi as ->. rewrite build_row_lookup_other by exact Hc.
    rewrite lookup_insert_eq. destruct values; reflexivity.
  - cbn in Hi. rewrite (IH _ _ i Hnd' Hi). destruct values; reflexivity.
Qed.

Lemma build_row_dom (E : Env) (cols : list string) (values : list value)
    (row : gmap string value) (col : string) :
  is_Some (build_row E cols values row !! col) <-> col ∈ cols \/ is_Some (row !! col).
Proof.
  revert values row. induction cols as [|c cols IH]; intros values row; cbn [build_row].
  - split; [auto|]. intros [H|H]; [apply elem_of_nil in H; contradiction|exact H].
  - rewrite IH, elem_of_cons. destruct (decide (col = c)) as [->|Hne].
    + rewrite lookup_insert_eq. split; [auto|]. intros _. right. eauto.
    + rewrite lookup_insert_ne by congruence. tauto.
Qed.

Lemma build_row_normal (E : Env) (cols : list string) (values : list value)
    (row : gmap string value) (col : string) (v : value) :
  (forall c u, row !! c = Some u -> normalizeValue E u = u) ->
  build_row E cols values row !! col = Some v -> normalizeValue E v = v.
Proof.
  revert values row. induction cols as [|c cols IH]; intros values row Hrow; cbn [build_row].
  - apply Hrow.
  - apply IH. intros c' u. destruct (decide (c' = c)) as [->|Hne].
    + rewrite lookup_insert_eq. intros H. injection H as <-.
      destruct (hd VNil values) as [| |t| | | | | |]; cbn; try reflexivity.
      destruct (IsZero t); reflexivity.
    + rewrite lookup_insert_ne by congruence. apply Hrow.
Qed.

(** X7. The row built from a scanned result: it has exactly the columns
    of the result as keys; with distinct column names the value under the
    [i]-th column is the normalized [i]-th scanned value; every value in it
    is already normalized (no raw bytes, no time). *)
Theorem build_row_columns (E : Env) (cols : list string) (values : list value) :
  (forall col, is_Some (build_row E cols values ∅ !! col) <-> col ∈ cols)
  /\ (NoDup cols ->
      forall i col, cols !! i = Some col ->
                    build_row E cols values ∅ !! col
                    = Some (normalizeValue E (default VNil (values !! i))))
  /\ (forall col v, build_row E cols values ∅ !! col = Some v ->
                    match v with
                    | VBytes _ | VTime _ => False
                    | _ => True
                    end).
Proof.
  split; [|split].
  - intros col. rewrite build_row_dom, lookup_empty. split; [|auto].
    intros [H|[x H]]; [exact H|discriminate H].
  - intros Hnd i col Hi. apply build_row_lookup; assumption.
  - intros col v Hv.
    assert (Hn : normalizeValue E v = v).
    { eapply build_row_normal; [|exact Hv]. intros c u H. rewrite lookup_empty in H.
      discriminate H. }
    destruct v; try exact I; cbn in Hn; [discriminate Hn|].
    destruct (IsZero t); discriminate Hn.
Qed.

(** *** [backupDir] *)

(** X8. [backupDir] changes no file.  The directory it returns is the
    [backup] directory of the configured git repository, and then the
    repository's [.git] was found, or else the [backup] directory under the
    beads directory ([.beads] when none is found); a configured repository
    without [.git] is no error, the fallback is used.  The last thing a
    successful call did was create the directory it returns; without a
    configured repository the result is the fallback or the error of
    creating it. *)
Theorem backupDir_resolves (E : Env) (w w' : World) (r : Result string) :
  backupDir E w = (r, w') ->
  files w' = files w
  /\ (forall dir, r = Ok dir ->
      (exists l, trace w' = trace w ++ l ++ [EvMkdirAll dir])
      /\ (dir = fallback_dir E
          \/ (config_GetString E "backup.git-repo" <> ""
              /\ dir = git_repo_dir E
              /\ os_fault E (now w) = None)))
  /\ (config_GetString E "backup.git-repo" = "" ->
      w' = emit (EvMkdirAll (fallback_dir E)) w
      /\ r = match os_fault E (now w) with
             | None => Ok (fallback_dir E)
             | Some m => Err (Errorf "failed to create backup directory: " (ErrMsg m))
             end)
  /\ (config_GetString E "backup.git-repo" <> "" ->
      os_fault E (now w) <> None ->
      r = match os_fault E (S (now w)) with
          | None => Ok (fallback_dir E)
          | Some m => Err (Errorf "failed to create backup directory: " (ErrMsg m))
          end).
Proof.
  intros H. split; [eapply backupDir_quiet; exact H|].
  revert H. unfold fallback_dir, git_repo_dir.
  cbv [backupDir bind ret os_Stat os_MkdirAll fault_error].
  destruct (String.eqb_spec (config_GetString E "backup.git-repo") "") as [Hcfg|Hcfg];
    cbn [negb]; rewrite ?now_emit.
  - intros H. split; [|split; [|congruence]].
    + intros dir ->. destruct (os_fault E (now w)); cbv beta iota in H;
        [discriminate H|].
      injection H as <- <-. split; [exists []; reflexivity|left; reflexivity].
    + intros _. destruct (os_fault E (now w)); cbv beta iota in H;
        injection H as <- <-; split; reflexivity.
  - intros H. split; [|split; [congruence|]].
    + intros dir ->. destruct (os_fault E (now w)) as [m|] eqn:Hstat; cbv beta iota in H;
        rewrite now_emit in H.
      * destruct (os_fault E (S (now w))); cbv beta iota in H; [discriminate H|].
        injection H as <- <-.
        split; [|left; reflexivity].
        eexists [_]. cbn [trace emit]. rewrite <- app_assoc. reflexivity.
      * destruct (os_fault E (S (now w))); cbv beta iota in H; [discriminate H|].
        injection H as <- <-.
        split; [|right; auto].
        eexists [_]. cbn [trace emit]. rewrite <- app_assoc. reflexivity.
    + intros _ Hstat. destruct (os_fault E (now w)); [|congruence]. cbv beta iota in H.
      rewrite now_emit in H.
      destruct (os_fault E (S (now w))); cbv beta iota in H; injection H as <- _;
        reflexivity.
Qed.

(** *** More on the Generic Table Exporter *)

(** X9. A query that returns no row still gives a file: [exportTable]
    hands the empty buffer to [atomicWriteFile] and returns count 0 with
    that call's error; when it is nil the output file exists and is
    empty. *)
Theorem exportTable_no_rows (E : Env) (dir filename query : string) (w : World)
    (rows : Rows) (cols : list string) :
  store_query E (now w) query [] = Ok rows ->
  rows_Columns rows = Ok cols ->
  rows_steps rows = [] ->
  rows_Err rows = None ->
  let write := atomicWriteFile E (filepath_Join dir filename) [] (emit (EvQuery query []) w) in
  exportTable E dir filename query w = ((0%Z, write.1), write.2)
  /\ (write.1 = None -> files write.2 !! filepath_Join dir filename = Some []).
Proof.
  intros Hq Hcols Hsteps Herr write.
  pose proof (exportTable_run E dir filename query w rows cols Hq Hcols) as Hrun.
  cbv zeta in Hrun. rewrite Hsteps, Herr in Hrun. cbn in Hrun.
  split; [exact Hrun|]. intros Hok.
  destruct write as [err w'] eqn:Hw. cbn [fst snd] in *. subst err.
  apply atomicWriteFile_effect in Hw as (l & _ & _ & _ & _ & Hfiles & _).
  rewrite (Hfiles eq_refl). apply lookup_insert_eq.
Qed.

(** X10. When the store refuses the query, or the result set cannot name
    its columns, both exporters return count 0 and the store's error under
    "query failed: " or "failed to get columns: "; they have done nothing
    but send the query, and the incremental exporter leaves the state as it
    was. *)
Theorem exporters_query_failure (E : Env) (dir : string) (w : World) :
  (forall filename query,
      match store_query E (now w) query [] with
      | Err e =>
          exportTable E dir filename query w
          = ((0%Z, Some (Errorf "query failed: " e)), emit (EvQuery query []) w)
      | Ok rows =>
          match rows_Columns rows with
          | Err e =>
              exportTable E dir filename query w
              = ((0%Z, Some (Errorf "failed to get columns: " e)),
                 emit (EvQuery query []) w)
          | Ok _ => True
          end
      end)
  /\ (forall st hw,
      let q := EvQuery (eventsQuery hw) (eventsArgs hw st) in
      match store_query E (now w) (eventsQuery hw) (eventsArgs hw st) with
      | Err e =>
          exportEventsIncremental E dir st hw w
          = ((0%Z, Some (Errorf "query failed: " e), st), emit q w)
      | Ok rows =>
          match rows_Columns rows with
          | Err e =>
              exportEventsIncremental E dir st hw w
              = ((0%Z, Some (Errorf "failed to get columns: " e), st), emit q w)
          | Ok _ => True
          end
      end).
Proof.
  split.
  - intros filename query. unfold exportTable. rewrite bind_run, QueryContext_run.
    cbn [fst snd]. destruct (store_query E (now w) query []) as [rows|e]; [|reflexivity].
    destruct (rows_Columns rows); [exact I|reflexivity].
  - intros st hw q. unfold exportEventsIncremental. rewrite bind_run, QueryContext_run.
    cbn [fst snd].
    destruct (store_query E (now w) (eventsQuery hw) (eventsArgs hw st)) as [rows|e];
      [|reflexivity].
    destruct (rows_Columns rows); [exact I|reflexivity].
Qed.

(** X11. A nil error from [exportTable] means the whole result was written:
    the store answered, every row scanned and serialized, the count is the
    number of rows, and the files are those from before with the output
    file replaced by the lines of all rows, whatever it held. *)
Theorem exportTable_success (E : Env) (dir filename query : string) (w w' : World) (n : Z) :
  exportTable E dir filename query w = ((n, None), w') ->
  exists rows cols,
    store_query E (now w) query [] = Ok rows
    /\ rows_Columns rows = Ok cols
    /\ rows_Err rows = None
    /\ forallb (row_ok E cols) (rows_steps rows) = true
    /\ n = Z.of_nat (length (rows_steps rows))
    /\ files w' = <[filepath_Join dir filename := rows_lines E cols (rows_steps rows)]> (files w).
Proof.
  intros H. pose proof H as H0. unfold exportTable in H0.
  rewrite bind_run, QueryContext_run in H0. cbn [fst snd] in H0.
  destruct (store_query E (now w) query []) as [rows|e] eqn:Hq;
    [|rewrite ret_run in H0; discriminate H0].
  destruct (rows_Columns rows) as [cols|e] eqn:Hcols;
    [|rewrite ret_run in H0; discriminate H0].
  clear H0.
  exists rows, cols. split; [reflexivity|]. split; [exact Hcols|].
  pose proof (exportTable_run E dir filename query w rows cols Hq Hcols) as Hrun.
  cbv zeta in Hrun.
  destruct (forallb (row_ok E cols) (rows_steps rows)); cbn [andb] in Hrun.
  2:{ destruct Hrun as [e Hrun]. congruence. }
  destruct (rows_Err rows) as [e|]; cbn [no_error] in Hrun.
  { destruct Hrun as [e' Hrun]. congruence. }
  rewrite H in Hrun. injection Hrun as -> Herr ->.
  split; [reflexivity|]. split; [reflexivity|]. split; [reflexivity|].
  destruct (atomicWriteFile E (filepath_Join dir filename)
              (rows_lines E cols (rows_steps rows)) (emit (EvQuery query []) w))
    as [err w''] eqn:Hw.
  cbn [fst snd] in *. subst err.
  apply atomicWriteFile_effect in Hw as (l & _ & _ & _ & _ & Hfiles & _).
  exact (Hfiles eq_refl).
Qed.

(** X12. [exportTable] keeps to its own file: besides the output file and
    its temp file (a name starting with ".backup-tmp-") it changes no file
    of the backup directory, whatever it returns. *)
Theorem exportTable_touches_only_its_file (E : Env) (dir filename query : string)
    (w w' : World) (n : Z) (err : error) :
  exportTable E dir filename query w = ((n, err), w') ->
  has_separator filename = false ->
  forall other, other <> filename -> plain_name other = true ->
    files w' !! filepath_Join dir other = files w !! filepath_Join dir other.
Proof.
  intros H Hsep other Hother Hplain.
  apply exportTable_effect in H as (l & _ & _ & Hframe). apply Hframe.
  - intros Heq. apply filepath_Join_inj in Heq. congruence.
  - intros Heq. symmetry in Heq. revert Heq. apply temp_path_ne; assumption.
Qed.

(** *** More on the Incremental Stream Exporter *)

(** X13. First run and later runs.  A successful export of at least one
    row with a zero watermark leaves the events file holding exactly the
    new lines; with a non-zero watermark it leaves the old content followed
    by the new lines (the new lines alone when the file did not exist).
    The count is the number of rows. *)
Theorem events_snapshot_then_append (E : Env) (dir : string) (st st' : backupState)
    (hw : bool) (w w' : World) (n : Z) :
  exportEventsIncremental E dir st hw w = ((n, None, st'), w') ->
  n <> 0%Z ->
  exists rows cols,
    store_query E (now w) (eventsQuery hw) (eventsArgs hw st) = Ok rows
    /\ rows_Columns rows = Ok cols
    /\ n = Z.of_nat (length (rows_steps rows))
    /\ (LastEventID st = 0%Z ->
        files w' !! events_path dir = Some (rows_lines E cols (rows_steps rows)))
    /\ (LastEventID st <> 0%Z ->
        files w' !! events_path dir
        = Some (default [] (files w !! events_path dir)
                ++ rows_lines E cols (rows_steps rows))).
Proof.
  intros H Hn. apply exportEventsIncremental_effect in H as (l & _ & _ & _ & _ & Hok).
  destruct (Hok eq_refl) as (rows & cols & Hq & Hcols & _ & Hlen & _ & Hfile).
  exists rows, cols. split; [exact Hq|]. split; [exact Hcols|]. split; [exact Hlen|].
  specialize (Hfile Hn). split.
  - intros Hzero. rewrite Hfile, Hzero. reflexivity.
  - intros Hnz. rewrite Hfile. destruct (Z.eqb_spec (LastEventID st) 0); [contradiction|].
    reflexivity.
Qed.

(** X14. With a non-zero watermark the events file is only ever extended:
    whatever the outcome of the call, also when the open, the write or the
    close fails, what the file held before is a prefix of what it holds
    after. *)
Theorem events_append_keeps_content (E : Env) (dir : string) (st st' : backupState)
    (hw : bool) (w w' : World) (n : Z) (err : error) (old : list byte) :
  exportEventsIncremental E dir st hw w = ((n, err, st'), w') ->
  LastEventID st <> 0%Z ->
  files w !! events_path dir = Some old ->
  exists added, files w' !! events_path dir = Some (old ++ added).
Proof.
  intros H Hnz Hold. unfold exportEventsIncremental in H.
  rewrite bind_run, QueryContext_run in H. cbn [fst snd] in H.
  set (w1 := emit (EvQuery (eventsQuery hw) (eventsArgs hw st)) w) in *.
  assert (Hstop : forall r : Z * error * backupState,
             ret r w1 = (n, err, st', w') ->
             exists added, files w' !! events_path dir = Some (old ++ added)).
  { intros r Hr. rewrite ret_run in Hr. injection Hr as _ <-. exists [].
    rewrite app_nil_r. exact Hold. }
  destruct (store_query E (now w) (eventsQuery hw) (eventsArgs hw st)) as [rows|e];
    [|eapply Hstop; exact H].
  destruct (rows_Columns rows) as [cols|e]; [|eapply Hstop; exact H].
  destruct (exportEvents_loop E cols (rows_steps rows) [] 0 0) as [[[lines count] maxID]|e];
    [|eapply Hstop; exact H].
  destruct (rows_Err rows) as [e|]; [eapply Hstop; exact H|].
  destruct (count =? 0)%Z; [eapply Hstop; exact H|].
  destruct (Z.eqb_spec (LastEventID st) 0) as [Hz|_]; [contradiction|].
  clear Hstop. revert H.
  cbv [bind ret os_OpenFile_append file_Write file_Close fault_error].
  change (files w1) with (files w). rewrite Hold.
  intros H. repeat case_match; simplify_eq.
  all: cbn [files emit with_files]; rewrite ?lookup_alter_eq, ?Hold; cbn.
  all: first [ exists []; rewrite app_nil_r; first [reflexivity|assumption]
             | eexists; reflexivity ].
Qed.

(** X15. The watermark an export with rows leaves is the largest [int64]
    id among the rows, or 0 when none is above 0: it is never negative, it
    does not depend on the watermark before, and it is 0 when no row
    carries an [int64] id. *)
Theorem events_watermark_value (E : Env) (dir : string) (st st' : backupState)
    (hw : bool) (w w' : World) (n : Z) :
  exportEventsIncremental E dir st hw w = ((n, None, st'), w') ->
  n <> 0%Z ->
  exists rows cols,
    store_query E (now w) (eventsQuery hw) (eventsArgs hw st) = Ok rows
    /\ rows_Columns rows = Ok cols
    /\ LastEventID st' = max_id E cols (rows_steps rows) 0
    /\ (0 <= LastEventID st')%Z
    /\ (forall id, id ∈ observed_ids E cols (rows_steps rows) -> (id <= LastEventID st')%Z)
    /\ (LastEventID st' = 0%Z \/ LastEventID st' ∈ observed_ids E cols (rows_steps rows))
    /\ (observed_ids E cols (rows_steps rows) = [] -> LastEventID st' = 0%Z).
Proof.
  intros H Hn. apply exportEventsIncremental_effect in H as (l & _ & _ & _ & _ & Hok).
  destruct (Hok eq_refl) as (rows & cols & Hq & Hcols & _ & _ & Hst & _).
  exists rows, cols. split; [exact Hq|]. split; [exact Hcols|].
  destruct (Z.eqb_spec n 0) as [Hz|_]; [contradiction|]. subst st'.
  cbn [LastEventID set_LastEventID]. split; [reflexivity|].
  split; [apply max_id_ge|]. split; [intros id; apply max_id_upper|].
  pose proof (max_id_in E cols (rows_steps rows) 0) as Hin.
  split; [exact Hin|]. intros Hnone. destruct Hin as [Heq|Hin]; [exact Heq|].
  rewrite Hnone in Hin. apply elem_of_nil in Hin. contradiction.
Qed.

(** X16. [exportEventsIncremental] keeps to the events file: besides it
    and its temp file it changes no file of the backup directory; when it
    returns an error it returns count 0 and the state as it was. *)
Theorem events_touches_only_its_file (E : Env) (dir : string) (st st' : backupState)
    (hw : bool) (w w' : World) (n : Z) (err : error) :
  exportEventsIncremental E dir st hw w = ((n, err, st'), w') ->
  (forall other, other <> "events.jsonl" -> plain_name other = true ->
     files w' !! filepath_Join dir other = files w !! filepath_Join dir other)
  /\ (err <> None -> n = 0%Z /\ st' = st).
Proof.
  intros H. split.
  - intros other Hother Hplain.
    apply exportEventsIncremental_effect in H as (l & _ & _ & Hframe & _). apply Hframe.
    + intros Heq. apply filepath_Join_inj in Heq. congruence.
    + intros Heq. symmetry in Heq. revert Heq. apply temp_path_ne; [reflexivity|assumption].
  - intros Herr. split; [|apply exportEventsIncremental_effect in H
                            as (l & _ & _ & _ & Hst & _); exact (Hst Herr)].
    unfold exportEventsIncremental in H. revert H.
    cbv [bind ret QueryContext os_OpenFile_append file_Write file_Close fault_error].
    intros H. repeat case_match; simplify_eq; try reflexivity; try congruence.
    all: match goal with
         | Hw : atomicWriteFile _ _ _ _ = _ |- _ => clear Hw
         end; congruence.
Qed.

(** *** Runs, step by step *)

Lemma extends_now (w w' : World) : extends w w' -> (now w <= now w')%nat.
Proof. intros [l H]. unfold now. rewrite H, length_app. lia. Qed.

Lemma exported_det (E : Env) (dir : string) (hw : bool) (ents : list entity)
    (st st1 st2 : backupState) (w w1 w2 : World) :
  exported E dir hw ents st w st1 w1 ->
  exported E dir hw ents st w st2 w2 ->
  st1 = st2 /\ w1 = w2.
Proof.
  intros H. revert st2 w2.
  induction H as [|ent ents st w n sta wa stb wb Hstep _ IH]; intros st2 w2 H2.
  - inversion H2; subst. split; reflexivity.
  - inversion H2 as [|? ? ? ? n' sta' wa' ? ? Hstep' Hrest']; subst.
    rewrite Hstep in Hstep'. injection Hstep' as _ <- <-. apply IH, Hrest'.
Qed.

Lemma exported_app_inv (E : Env) (dir : string) (hw : bool) (a b : list entity)
    (st st' : backupState) (w w' : World) :
  exported E dir hw (a ++ b) st w st' w' ->
  exists stm wm, exported E dir hw a st w stm wm /\ exported E dir hw b stm wm st' w'.
Proof.
  revert st w. induction a as [|ent a IH]; intros st w H.
  - exists st, w. split; [constructor|exact H].
  - inversion H as [|? ? ? ? n st1 w1 ? ? Hstep Hrest]; subst.
    apply IH in Hrest as (stm & wm & Ha & Hb).
    exists stm, wm. split; [econstructor; eassumption|exact Hb].
Qed.

Lemma entity_file_inj (a b : entity) : entity_file a = entity_file b -> a = b.
Proof. destruct a, b; cbn; intros H; (reflexivity || discriminate H). Qed.

Lemma entity_file_name (ent : entity) : plain_name (entity_file ent) = true.
Proof. destruct ent; reflexivity. Qed.

(** A step changes no file of the directory but its own. *)
Lemma export_entity_preserves (E : Env) (dir : string) (hw : bool) (ent : entity)
    (st st1 : backupState) (w w' : World) (n : Z) (err : error) (g : string) :
  export_entity E dir hw ent st w = ((n, err, st1), w') ->
  plain_name g = true ->
  g <> entity_file ent ->
  files w' !! filepath_Join dir g = files w !! filepath_Join dir g.
Proof.
  intros H Hg Hne. apply export_entity_effect in H as (l & _ & _ & Hframe).
  apply Hframe.
  - intros Heq. apply filepath_Join_inj in Heq. contradiction.
  - intros Heq. symmetry in Heq. revert Heq.
    apply temp_path_ne; [apply entity_file_plain|exact Hg].
Qed.

Lemma exported_preserves (E : Env) (dir : string) (hw : bool) (ents : list entity)
    (st st' : backupState) (w w' : World) (g : string) :
  exported E dir hw ents st w st' w' ->
  plain_name g = true ->
  (forall ent, In ent ents -> g <> entity_file ent) ->
  files w' !! filepath_Join dir g = files w !! filepath_Join dir g.
Proof.
  intros H Hg. induction H as [|ent ents st w n st1 w1 st2 w2 Hstep _ IH]; intros Hne.
  - reflexivity.
  - rewrite IH by (intros e He; apply Hne; right; exact He).
    eapply export_entity_preserves; [exact Hstep|exact Hg|apply Hne; left; reflexivity].
Qed.

Lemma export_entity_count_other (E : Env) (dir : string) (hw : bool) (ent ent' : entity)
    (st st1 : backupState) (w w' : World) (n : Z) (err : error) :
  export_entity E dir hw ent st w = ((n, err, st1), w') ->
  ent' <> ent ->
  entity_count ent' (Counts st1) = entity_count ent' (Counts st).
Proof.
  intros H Hne.
  assert (Hcases : ent = events \/ ent <> events)
    by (destruct ent; first [left; reflexivity | right; discriminate]).
  destruct Hcases as [->|Hent].
  - apply export_entity_events_inv in H as (st2 & Hx & ->).
    apply exportEventsIncremental_Counts in Hx as (Hc & _).
    destruct ent'; try congruence; cbn; rewrite Hc; reflexivity.
  - apply export_entity_table_inv in H as [_ ->]; [|exact Hent].
    destruct ent, ent'; try congruence; reflexivity.
Qed.

Lemma exported_count_other (E : Env) (dir : string) (hw : bool) (ents : list entity)
    (ent' : entity) (st st' : backupState) (w w' : World) :
  exported E dir hw ents st w st' w' ->
  ~ In ent' ents ->
  entity_count ent' (Counts st') = entity_count ent' (Counts st).
Proof.
  induction 1 as [|ent ents st w n st1 w1 st2 w2 Hstep _ IH]; intros Hnin; [reflexivity|].
  rewrite IH by (intros Hin; apply Hnin; right; exact Hin).
  eapply export_entity_count_other; [exact Hstep|].
  intros ->. apply Hnin. left. reflexivity.
Qed.

(** What one full-snapshot step that returned no error leaves. *)
Lemma export_entity_snapshot (E : Env) (dir : string) (hw : bool) (ent : entity)
    (st st1 : backupState) (w w' : World) (n : Z) :
  ent <> events ->
  export_entity E dir hw ent st w = ((n, None, st1), w') ->
  exists rows cols,
    store_query E (now w) (entity_query hw ent) [] = Ok rows
    /\ rows_Columns rows = Ok cols
    /\ files w' !! filepath_Join dir (entity_file ent)
       = Some (rows_lines E cols (rows_steps rows))
    /\ entity_count ent (Counts st1) = Z.of_nat (length (rows_steps rows)).
Proof.
  intros Hent H. apply export_entity_table_inv in H as [H ->]; [|exact Hent].
  assert (Hcount : entity_count ent (Counts (count_update ent n st)) = n)
    by (destruct ent; try congruence; reflexivity).
  rewrite Hcount. clear Hcount.
  destruct (store_query E (now w) (entity_query hw ent) []) as [rows|e] eqn:Hq.
  2:{ exfalso. revert H. unfold exportTable. rewrite bind_run, QueryContext_run, Hq.
      cbn [fst snd]. rewrite ret_run. intros H. discriminate H. }
  destruct (rows_Columns rows) as [cols|e] eqn:Hc.
  2:{ exfalso. revert H. unfold exportTable. rewrite bind_run, QueryContext_run, Hq.
      cbn [fst snd]. rewrite Hc, ret_run. intros H. discriminate H. }
  exists rows, cols. split; [reflexivity|]. split; [exact Hc|].
  pose proof (exportTable_run E dir (entity_file ent) _ w rows cols Hq Hc) as Hrun.
  cbv zeta in Hrun.
  destruct (forallb (row_ok E cols) (rows_steps rows) && no_error (rows_Err rows)).
  2:{ destruct Hrun as [e He]. rewrite He in H. discriminate H. }
  rewrite Hrun in H. injection H as <- Herr Hw.
  destruct (atomicWriteFile E (filepath_Join dir (entity_file ent))
              (rows_lines E cols (rows_steps rows))
              (emit (EvQuery (entity_query hw ent) []) w)) as [err w1] eqn:Hwrite.
  cbn [fst snd] in Herr, Hw. subst err w1.
  apply atomicWriteFile_effect in Hwrite as (l & _ & _ & _ & _ & Hok & _).
  rewrite (Hok eq_refl), lookup_insert_eq. split; reflexivity.
Qed.

Lemma export_entity_extends (E : Env) (dir : string) (hw : bool) (ent : entity)
    (st st1 : backupState) (w w' : World) (n : Z) (err : error) :
  export_entity E dir hw ent st w = ((n, err, st1), w') -> (now w < now w')%nat.
Proof.
  intros H. apply export_entity_effect in H as (l & Htr & _).
  unfold now. rewrite Htr, length_app. cbn [length]. lia.
Qed.

Lemma exported_now (E : Env) (dir : string) (hw : bool) (ents : list entity)
    (st st' : backupState) (w w' : World) :
  exported E dir hw ents st w st' w' -> (now w <= now w')%nat.
Proof.
  induction 1 as [|ent ents st w n st1 w1 st2 w2 Hstep _ IH]; [lia|].
  apply export_entity_extends in Hstep. lia.
Qed.

(** After the steps of [ents], each of them once: the file of every
    full-snapshot entity among them holds the rows its statement returned
    at some instant of these steps, and its count is their number. *)
Lemma exported_snapshots (E : Env) (dir : string) (hw : bool) (ents : list entity)
    (st st' : backupState) (w w' : World) :
  exported E dir hw ents st w st' w' ->
  List.NoDup ents ->
  forall ent, In ent ents -> ent <> events ->
  exists t rows cols,
    (now w <= t < now w')%nat
    /\ store_query E t (entity_query hw ent) [] = Ok rows
    /\ rows_Columns rows = Ok cols
    /\ files w' !! filepath_Join dir (entity_file ent)
       = Some (rows_lines E cols (rows_steps rows))
    /\ entity_count ent (Counts st') = Z.of_nat (length (rows_steps rows)).
Proof.
  induction 1 as [|ent0 ents st w n st1 w1 st2 w2 Hstep Hrest IH];
    intros Hnd ent Hin Hent; [destruct Hin|].
  inversion Hnd as [|? ? Hnin Hnd']; subst.
  pose proof (export_entity_extends _ _ _ _ _ _ _ _ _ _ Hstep) as Hlt.
  pose proof (exported_now _ _ _ _ _ _ _ _ Hrest) as Hle.
  destruct Hin as [<-|Hin].
  - apply export_entity_snapshot in Hstep as (rows & cols & Hq & Hc & Hfile & Hcount);
      [|exact Hent].
    exists (now w), rows, cols. split; [lia|]. split; [exact Hq|]. split; [exact Hc|].
    split.
    + rewrite (exported_preserves _ _ _ _ _ _ _ _ _ Hrest); [exact Hfile|apply entity_file_name|].
      intros e He Heq. apply entity_file_inj in Heq. subst e. contradiction.
    + rewrite (exported_count_other _ _ _ _ _ _ _ _ _ Hrest Hnin). exact Hcount.
  - destruct (IH Hnd' ent Hin Hent) as (t & rows & cols & Ht & Hq & Hc & Hfile & Hcount).
    exists t, rows, cols. split; [lia|]. auto.
Qed.

Lemma run_order_NoDup : List.NoDup run_order.
Proof.
  unfold run_order.
  repeat (constructor; [cbn; intros H; repeat destruct H as [H|H]; try discriminate H; exact H|]).
  constructor.
Qed.

(** What [saveBackupState] leaves of the other plain files of the
    directory. *)
Lemma saveBackupState_preserves (E : Env) (dir : string) (st : backupState)
    (w w' : World) (err : error) (g : string) :
  saveBackupState E dir st w = (err, w') ->
  plain_name g = true ->
  g <> "backup_state.json" ->
  files w' !! filepath_Join dir g = files w !! filepath_Join dir g.
Proof.
  unfold saveBackupState. intros H Hg Hne.
  destruct (json_MarshalIndent E st) as [data|e].
  2:{ rewrite ret_run in H. injection H as _ <-. reflexivity. }
  apply atomicWriteFile_effect in H as (l & _ & _ & _ & Hframe & _).
  apply Hframe.
  - intros Heq. apply filepath_Join_inj in Heq. contradiction.
  - intros Heq. symmetry in Heq. revert Heq. apply temp_path_ne; [reflexivity|exact Hg].
Qed.

(** A run that saved its state leaves it as the stored state. *)
Lemma run_stored (E : Env) (force : bool) (w w1 w' : World) (dir : string)
    (st : backupState) :
  json_round_trip E ->
  runBackupExport E force w = (Ok st, w') ->
  backupDir E w = (Ok dir, w1) ->
  stored_state E dir (files w') = Ok st.
Proof.
  intros Hjson Hrun Hdir.
  apply runBackupExport_inv in Hrun.
  destruct Hrun as [(e & _ & He)|(dir0 & w0 & Hdir0 & Hrun)]; [discriminate He|].
  rewrite Hdir in Hdir0. injection Hdir0 as <- <-.
  pose proof (backupDir_quiet _ _ _ _ Hdir) as [Hf1 _].
  destruct Hrun as [(e & _ & He)|(state & w2 & Hload & Hrun)]; [discriminate He|].
  pose proof (loadBackupState_stored _ _ _ _ _ Hload) as Hstored.
  pose proof (loadBackupState_quiet _ _ _ _ _ Hload) as [Hf2 _].
  destruct Hrun as [Hstop|(w3 & hw & w4 & Hchange & Hprobe & Hrun)].
  - pose proof (change_detection_quiet _ _ _ _ _ _ Hstop) as [Hf3 _].
    rewrite change_detection_run in Hstop. destruct force; [discriminate Hstop|].
    injection Hstop as Hstop _.
    destruct (store_commit E (now w2)); [|discriminate Hstop].
    destruct (_ && _); [|discriminate Hstop]. injection Hstop as <-.
    rewrite Hf3, Hf2. exact Hstored.
  - inversion Hrun as [| |st6 w6 c w7 t w8 err w'' Hall Hcommit Hnow Hsave Hr Hw]; subst.
    destruct err as [e|]; [discriminate Hr|]. injection Hr as <-.
    apply saveBackupState_effect in Hsave as (l & _ & _ & _ & _ & Hok).
    destruct (Hok eq_refl) as (data & Hmarshal & Hfiles).
    unfold stored_state. rewrite Hfiles, lookup_insert_eq. apply Hjson, Hmarshal.
Qed.

(** X17. With [force] set, a run that loaded its state sends no revision
    query before the exports: the first calls after the state file is read
    are the shadow-table probe and the issues statement, whatever the
    stored revision. *)
Theorem force_skips_change_detection (E : Env) (w w1 w2 w' : World) (dir : string)
    (state : backupState) (r : Result backupState) :
  runBackupExport E true w = (r, w') ->
  backupDir E w = (Ok dir, w1) ->
  loadBackupState E dir w1 = (Ok state, w2) ->
  exists (hw : bool) (l : list Event),
    tableExistsCheck E "wisps" w2 = (hw, emit (EvQuery tableExistsQuery [VString "wisps"]) w2)
    /\ trace w' = trace w2 ++ EvQuery tableExistsQuery [VString "wisps"]
                              :: EvQuery (issuesQuery hw) [] :: l.
Proof.
  intros Hrun Hdir Hload. apply runBackupExport_inv in Hrun.
  destruct Hrun as [(e & Hdir0 & _)|(dir0 & w0 & Hdir0 & Hrun)]; [congruence|].
  rewrite Hdir in Hdir0. injection Hdir0 as <- <-.
  destruct Hrun as [(e & Hload0 & _)|(state0 & w0 & Hload0 & Hrun)]; [congruence|].
  rewrite Hload in Hload0. injection Hload0 as <- <-.
  rewrite change_detection_run in Hrun.
  destruct Hrun as [Hstop|(w3 & hw & w4 & Hchange & Hprobe & Hrun)]; [discriminate Hstop|].
  injection Hchange as <-.
  exists hw. apply run_exports_starts in Hrun as [l Htr]. exists l.
  rewrite tableExistsCheck_run in Hprobe. injection Hprobe as Hhw <-.
  split; [rewrite tableExistsCheck_run, Hhw; reflexivity|].
  rewrite Htr. cbn [trace emit]. rewrite <- app_assoc. reflexivity.
Qed.

(** X18. Without [force], when the revision query fails the run returns this
    error under "failed to get current commit: "; it has sent no statement
    to the store and changed no file, and the revision query was its last
    call. *)
Theorem revision_query_failure_aborts (E : Env) (w w1 w2 : World) (dir : string)
    (state : backupState) (e : error_value) :
  backupDir E w = (Ok dir, w1) ->
  loadBackupState E dir w1 = (Ok state, w2) ->
  store_commit E (now w2) = Err e ->
  runBackupExport E false w
  = (Err (Errorf "failed to get current commit: " e), emit EvGetCurrentCommit w2)
  /\ files (emit EvGetCurrentCommit w2) = files w
  /\ queries (trace (emit EvGetCurrentCommit w2)) = queries (trace w).
Proof.
  intros Hdir Hload Hcommit.
  pose proof (backupDir_quiet _ _ _ _ Hdir) as Hq1.
  pose proof (loadBackupState_quiet _ _ _ _ _ Hload) as Hq2.
  split; [|split].
  - unfold runBackupExport. rewrite bind_run, Hdir. cbn [fst snd].
    rewrite bind_run, Hload. cbn [fst snd].
    rewrite bind_run, change_detection_run, Hcommit. cbn [fst snd].
    rewrite ret_run. reflexivity.
  - destruct Hq1 as [Hf1 _], Hq2 as [Hf2 _]. cbn [files emit]. congruence.
  - change (queries (trace (emit EvGetCurrentCommit w2)))
      with (queries (trace w2 ++ [EvGetCurrentCommit])).
    rewrite queries_app. cbn [queries]. rewrite app_nil_r.
    rewrite (quiet_queries _ _ Hq2), (quiet_queries _ _ Hq1). reflexivity.
Qed.

(** X19. The state a completed run returns: its revision is the one the
    store reported after the six exports (not the one change detection
    read), its timestamp is the clock read after that, in UTC, its
    watermark and counts are those the exports left, and the state file
    holds exactly its indented serialisation. *)
Theorem completed_run_state (E : Env) (force : bool) (w w1 w2 w3 w' : World) (dir : string)
    (state st : backupState) :
  runBackupExport E force w = (Ok st, w') ->
  backupDir E w = (Ok dir, w1) ->
  loadBackupState E dir w1 = (Ok state, w2) ->
  change_detection E force state w2 = (None, w3) ->
  exists hw st6 w6 data,
    exported E dir hw run_order state (tableExistsCheck E "wisps" w3).2 st6 w6
    /\ store_commit E (now w6) = Ok (LastDoltCommit st)
    /\ Timestamp st = UTC (time_now E (S (now w6)))
    /\ LastEventID st = LastEventID st6
    /\ Counts st = Counts st6
    /\ json_MarshalIndent E st = Ok data
    /\ files w' = <[state_path dir := data]> (files w6).
Proof.
  intros Hrun Hdir Hload Hchange. apply runBackupExport_inv in Hrun.
  destruct Hrun as [(e & Hdir0 & _)|(dir0 & w0 & Hdir0 & Hrun)]; [congruence|].
  rewrite Hdir in Hdir0. injection Hdir0 as <- <-.
  destruct Hrun as [(e & Hload0 & _)|(state0 & w0 & Hload0 & Hrun)]; [congruence|].
  rewrite Hload in Hload0. injection Hload0 as <- <-.
  destruct Hrun as [Hstop|(w3' & hw & w4 & Hchange' & Hprobe & Hrun)]; [congruence|].
  rewrite Hchange in Hchange'. injection Hchange' as <-.
  inversion Hrun as [| |st6 w6 c w7 t w8 err w'' Hall Hcommit Hnow Hsave Hr Hw]; subst.
  destruct err as [e|]; [discriminate Hr|]. injection Hr as <-.
  rewrite store_GetCurrentCommit_run in Hcommit. injection Hcommit as Hc <-.
  unfold time_Now in Hnow. injection Hnow as <- <-.
  apply saveBackupState_effect in Hsave as (l & _ & _ & _ & _ & Hok).
  destruct (Hok eq_refl) as (data & Hmarshal & Hfiles).
  exists hw, st6, w6, data. rewrite Hprobe. cbn [snd].
  split; [exact Hall|]. split; [|split; [|split; [|split; [|split]]]].
  - destruct (store_commit E (now w6)); [|discriminate Hc]. injection Hc as ->. reflexivity.
  - cbn [Timestamp set_Timestamp]. rewrite now_emit. reflexivity.
  - reflexivity.
  - reflexivity.
  - exact Hmarshal.
  - exact Hfiles.
Qed.

(** X20. After a completed run every full-snapshot file (issues, comments,
    dependencies, labels, config) holds exactly the serialised rows its
    statement returned at an instant of this run, whatever the file held
    before, and the count of the entity in the returned state is the
    number of these rows. *)
Theorem completed_run_snapshots (E : Env) (force : bool) (w w1 w2 w3 w' : World)
    (dir : string) (state st : backupState) (ent : entity) :
  runBackupExport E force w = (Ok st, w') ->
  backupDir E w = (Ok dir, w1) ->
  loadBackupState E dir w1 = (Ok state, w2) ->
  change_detection E force state w2 = (None, w3) ->
  ent <> events ->
  exists t rows cols,
    (now w3 < t < now w')%nat
    /\ store_query E t (entity_query (tableExistsCheck E "wisps" w3).1 ent) [] = Ok rows
    /\ rows_Columns rows = Ok cols
    /\ files w' !! filepath_Join dir (entity_file ent)
       = Some (rows_lines E cols (rows_steps rows))
    /\ entity_count ent (Counts st) = Z.of_nat (length (rows_steps rows)).
Proof.
  intros Hrun Hdir Hload Hchange Hent. apply runBackupExport_inv in Hrun.
  destruct Hrun as [(e & Hdir0 & _)|(dir0 & w0 & Hdir0 & Hrun)]; [congruence|].
  rewrite Hdir in Hdir0. injection Hdir0 as <- <-.
  destruct Hrun as [(e & Hload0 & _)|(state0 & w0 & Hload0 & Hrun)]; [congruence|].
  rewrite Hload in Hload0. injection Hload0 as <- <-.
  destruct Hrun as [Hstop|(w3' & hw & w4 & Hchange' & Hprobe & Hrun)]; [congruence|].
  rewrite Hchange in Hchange'. injection Hchange' as <-.
  inversion Hrun as [| |st6 w6 c w7 t w8 err w'' Hall Hcommit Hnow Hsave Hr Hw]; subst.
  destruct err as [e|]; [discriminate Hr|]. injection Hr as <-.
  rewrite Hprobe. cbn [fst].
  assert (Hin : In ent run_order) by (destruct ent; cbn; tauto).
  destruct (exported_snapshots _ _ _ _ _ _ _ _ Hall run_order_NoDup ent Hin Hent)
    as (t0 & rows & cols & Ht & Hq & Hc & Hfile & Hcount).
  exists t0, rows, cols.
  rewrite tableExistsCheck_run in Hprobe. injection Hprobe as _ <-.
  rewrite store_GetCurrentCommit_run in Hcommit. injection Hcommit as _ <-.
  unfold time_Now in Hnow. injection Hnow as _ <-.
  pose proof (saveBackupState_effect _ _ _ _ _ _ Hsave) as (l & Htr & _).
  split.
  { unfold now in *. rewrite Htr. cbn [trace emit] in *.
    rewrite !length_app in *. cbn [length] in *. lia. }
  split; [exact Hq|]. split; [exact Hc|]. split; [|exact Hcount].
  rewrite (saveBackupState_preserves _ _ _ _ _ _ _ Hsave);
    [exact Hfile|apply entity_file_name|apply entity_file_plain].
Qed.

(** X21. Running again after a completed run, with the revision of the store
    still the one the run recorded (and not empty), the state file reading
    back as written and no read fault: the second run returns the state of
    the first, sends no statement and changes no file. *)
Theorem unchanged_repeat_is_a_no_op (E : Env) (force : bool) (w w1 w' w2 : World)
    (dir : string) (st : backupState) :
  json_round_trip E ->
  runBackupExport E force w = (Ok st, w') ->
  backupDir E w = (Ok dir, w1) ->
  backupDir E w' = (Ok dir, w2) ->
  os_fault E (now w2) = None ->
  store_commit E (S (now w2)) = Ok (LastDoltCommit st) ->
  LastDoltCommit st <> "" ->
  let w3 := emit EvGetCurrentCommit (emit (EvReadFile (state_path dir)) w2) in
  runBackupExport E false w' = (Ok st, w3)
  /\ files w3 = files w'
  /\ queries (trace w3) = queries (trace w').
Proof.
  intros Hjson Hrun Hdir Hdir2 Hread Hrev Hne w3.
  pose proof (run_stored _ _ _ _ _ _ _ Hjson Hrun Hdir) as Hstored.
  pose proof (backupDir_quiet _ _ _ _ Hdir2) as Hq.
  assert (Hload : loadBackupState E dir w2
                  = (Ok st, emit (EvReadFile (state_path dir)) w2)).
  { rewrite loadBackupState_run. unfold stored_state in Hstored.
    destruct Hq as [Hf _]. rewrite Hf.
    destruct (files w' !! state_path dir) as [data|].
    - rewrite Hread, Hstored. reflexivity.
    - injection Hstored as <-. contradiction Hne. reflexivity. }
  split; [|split].
  - unfold runBackupExport. rewrite bind_run, Hdir2. cbn [fst snd].
    rewrite bind_run, Hload. cbn [fst snd].
    rewrite bind_run, change_detection_run, now_emit, Hrev. cbn [fst snd].
    rewrite String.eqb_refl. cbn [andb].
    destruct (String.eqb_spec (LastDoltCommit st) "") as [Heq|_]; [contradiction|].
    cbn [negb]. rewrite ret_run. reflexivity.
  - destruct Hq as [Hf _]. exact Hf.
  - subst w3. cbn [trace emit]. rewrite !queries_app. cbn [queries]. rewrite !app_nil_r.
    apply quiet_queries, Hq.
Qed.

(** X22. A run that fails after its first two exports returned without error
    leaves the events file as the events export left it, while the stored
    state is the one the run started from: lines appended by the events
    export stay in the file although the watermark that would skip them
    next time was not saved. *)
Theorem failed_run_keeps_appended_events (E : Env) (force : bool)
    (w w1 w2 w3 w4 w6 w' : World) (dir : string) (state st2 : backupState)
    (hw : bool) (e : error_value) :
  runBackupExport E force w = (Err e, w') ->
  backupDir E w = (Ok dir, w1) ->
  loadBackupState E dir w1 = (Ok state, w2) ->
  change_detection E force state w2 = (None, w3) ->
  tableExistsCheck E "wisps" w3 = (hw, w4) ->
  exported E dir hw [issues; events] state w4 st2 w6 ->
  files w' !! events_path dir = files w6 !! events_path dir
  /\ stored_state E dir (files w') = Ok state.
Proof.
  intros Hrun Hdir Hload Hchange Hprobe Hdone.
  assert (Hstate : stored_state E dir (files w') = Ok state).
  { pose proof (loadBackupState_stored _ _ _ _ _ Hload) as Hstored.
    pose proof (backupDir_quiet _ _ _ _ Hdir) as [Hf1 _].
    rewrite <- Hstored, Hf1. apply stored_state_untouched.
    destruct (run_reaches_save _ _ _ _ _ _ _ Hrun Hdir)
      as [[Hf _]|(state' & hw' & w4' & st6 & w6' & w8 & st' & err & _ & U6 & U68 & Hsave & Hr)];
      [exact Hf|].
    destruct err as [e0|]; [|discriminate Hr].
    apply saveBackupState_effect in Hsave as (l & _ & _ & _ & Hfail & _).
    rewrite Hfail by discriminate.
    destruct (untouched_trans _ _ _ _ U6 U68) as [Hf _]. exact Hf. }
  split; [|exact Hstate]. clear Hstate.
  apply runBackupExport_inv in Hrun.
  destruct Hrun as [(e0 & Hdir0 & _)|(dir0 & w0 & Hdir0 & Hrun)]; [congruence|].
  rewrite Hdir in Hdir0. injection Hdir0 as <- <-.
  destruct Hrun as [(e0 & Hload0 & _)|(state0 & w0 & Hload0 & Hrun)]; [congruence|].
  rewrite Hload in Hload0. injection Hload0 as <- <-.
  destruct Hrun as [Hstop|(w3' & hw' & w4' & Hchange' & Hprobe' & Hrun)]; [congruence|].
  rewrite Hchange in Hchange'. injection Hchange' as <-.
  rewrite Hprobe in Hprobe'. injection Hprobe' as <- <-.
  assert (Hrest : forall ents st' w'',
             exported E dir hw ents st2 w6 st' w'' ->
             ~ In events ents ->
             files w'' !! events_path dir = files w6 !! events_path dir).
  { intros ents st' w'' Hx Hnin. unfold events_path.
    eapply (exported_preserves _ _ _ _ _ _ _ _ "events.jsonl"); [exact Hx|reflexivity|].
    intros ent Hin Heq. apply (entity_file_inj events) in Heq. subst ent. contradiction. }
  assert (Hall : forall st6 w6',
             exported E dir hw run_order state w4 st6 w6' ->
             files w6' !! events_path dir = files w6 !! events_path dir).
  { intros st6 w6' Hx.
    change run_order with ([issues; events] ++ [comments; dependencies; labels; config]) in Hx.
    apply exported_app_inv in Hx as (stm & wm & Ha & Hb).
    destruct (exported_det _ _ _ _ _ _ _ _ _ _ Hdone Ha) as [<- <-].
    eapply Hrest; [exact Hb|].
    cbn. intros H. repeat destruct H as [H|H]; try discriminate H; exact H. }
  inversion Hrun as [done ent rest st_k w_k n e0 st_x w'' Horder Hprefix Hstep He Hw
                    |st6 w6' e0 w'' Hx Hcommit He Hw
                    |st6 w6' c w7 t w8 err w'' Hx Hcommit Hnow Hsave He Hw]; subst.
  - unfold run_order in Horder.
    destruct done as [|d1 done]; [|destruct done as [|d2 done]].
    + injection Horder as <- _. inversion Hprefix; subst.
      inversion Hdone as [|? ? ? ? n1 sta wa ? ? Hs1 _]; subst. congruence.
    + injection Horder as <- <- _.
      inversion Hdone as [|? ? ? ? n1 sta wa ? ? Hs1 Hr1]; subst.
      inversion Hprefix as [|? ? ? ? n1' sta' wa' ? ? Hs1' Hr1']; subst.
      inversion Hr1'; subst.
      rewrite Hs1 in Hs1'. injection Hs1' as _ <- <-.
      inversion Hr1 as [|? ? ? ? n2 stb wb ? ? Hs2 _]; subst. congruence.
    + injection Horder as <- <- Horder.
      change (issues :: events :: done) with ([issues; events] ++ done) in Hprefix.
      apply exported_app_inv in Hprefix as (stm & wm & Ha & Hb).
      destruct (exported_det _ _ _ _ _ _ _ _ _ _ Hdone Ha) as [<- <-].
      assert (Hnin : ~ In events (done ++ [ent])).
      { assert (Hsub : forall x, In x (done ++ [ent]) ->
                                 In x [comments; dependencies; labels; config]).
        { intros x Hin. rewrite Horder. apply in_app_iff in Hin as [Hin|[<-|[]]];
            apply in_app_iff; [left; exact Hin|right; left; reflexivity]. }
        intros Hin. apply Hsub in Hin. cbn in Hin.
        repeat destruct Hin as [Hin|Hin]; try discriminate Hin; exact Hin. }
      unfold events_path.
      rewrite (export_entity_preserves _ _ _ _ _ _ _ _ _ _ "events.jsonl" Hstep);
        [|reflexivity|].
      * apply (Hrest done st_k); [exact Hb|].
        intros Hin. apply Hnin, in_app_iff. left. exact Hin.
      * intros Heq. apply (entity_file_inj events) in Heq. subst ent.
        apply Hnin, in_app_iff. right. left. reflexivity.
  - rewrite store_GetCurrentCommit_run in Hcommit. injection Hcommit as _ <-.
    cbn [files emit]. eapply Hall; exact Hx.
  - rewrite store_GetCurrentCommit_run in Hcommit. injection Hcommit as _ <-.
    unfold time_Now in Hnow. injection Hnow as _ <-.
    unfold events_path.
    rewrite (saveBackupState_preserves _ _ _ _ _ _ "events.jsonl" Hsave);
      [|reflexivity|discriminate].
    cbn [files emit]. eapply Hall; exact Hx.
Qed.

(** X23. A run that got past the probe and failed names the failing step in
    its error: the error of the first export that failed, under the context
    of its entity, the statements sent being those of the entities up to and
    including it, in the order of the source, and none after it; or, all six
    statements sent, the error of the second revision query under "failed
    to get current commit for state: ", or the error of saving the state. *)
Theorem run_stops_at_first_failure (E : Env) (force : bool) (w w1 w2 w3 w4 w' : World)
    (dir : string) (state : backupState) (hw : bool) (e : error_value) :
  runBackupExport E force w = (Err e, w') ->
  backupDir E w = (Ok dir, w1) ->
  loadBackupState E dir w1 = (Ok state, w2) ->
  change_detection E force state w2 = (None, w3) ->
  tableExistsCheck E "wisps" w3 = (hw, w4) ->
  (exists done ent rest st_k w_k n e0 st_x,
      run_order = done ++ ent :: rest
      /\ exported E dir hw done state w4 st_k w_k
      /\ export_entity E dir hw ent st_k w_k = ((n, Some e0, st_x), w')
      /\ e = Errorf (entity_context ent) e0
      /\ queries (trace w') = queries (trace w4) ++ map (entity_query hw) (done ++ [ent]))
  \/ (exists st6 w6,
      exported E dir hw run_order state w4 st6 w6
      /\ queries (trace w') = queries (trace w4) ++ map (entity_query hw) run_order
      /\ ((exists e0, store_commit E (now w6) = Err e0
                      /\ e = Errorf "failed to get current commit for state: " e0)
          \/ exists st', (saveBackupState E dir st'
                            (emit EvNow (emit EvGetCurrentCommit w6))).1 = Some e)).
Proof.
  intros Hrun Hdir Hload Hchange Hprobe.
  apply runBackupExport_inv in Hrun.
  destruct Hrun as [(e0 & Hdir0 & _)|(dir0 & w0 & Hdir0 & Hrun)]; [congruence|].
  rewrite Hdir in Hdir0. injection Hdir0 as <- <-.
  destruct Hrun as [(e0 & Hload0 & _)|(state0 & w0 & Hload0 & Hrun)]; [congruence|].
  rewrite Hload in Hload0. injection Hload0 as <- <-.
  destruct Hrun as [Hstop|(w3' & hw' & w4' & Hchange' & Hprobe' & Hrun)]; [congruence|].
  rewrite Hchange in Hchange'. injection Hchange' as <-.
  rewrite Hprobe in Hprobe'. injection Hprobe' as <- <-.
  inversion Hrun as [done ent rest st_k w_k n e0 st_x w'' Horder Hprefix Hstep He Hw
                    |st6 w6 e0 w'' Hx Hcommit He Hw
                    |st6 w6 c w7 t w8 err w'' Hx Hcommit Hnow Hsave He Hw]; subst.
  - left. exists done, ent, rest, st_k, w_k, n, e0, st_x.
    split; [exact Horder|]. split; [exact Hprefix|]. split; [exact Hstep|].
    split; [reflexivity|].
    rewrite (export_entity_queries _ _ _ _ _ _ _ _ _ _ Hstep),
      (exported_queries _ _ _ _ _ _ _ _ Hprefix), map_app, <- app_assoc. reflexivity.
  - right. exists st6, w6. split; [exact Hx|].
    rewrite store_GetCurrentCommit_run in Hcommit. injection Hcommit as Hc <-.
    split.
    + change (trace (emit EvGetCurrentCommit w6)) with (trace w6 ++ [EvGetCurrentCommit]).
      rewrite queries_app. cbn [queries]. rewrite app_nil_r.
      apply (exported_queries _ _ _ _ _ _ _ _ Hx).
    + left. exists e0. destruct (store_commit E (now w6)); [discriminate Hc|].
      injection Hc as ->. split; reflexivity.
  - right. exists st6, w6. split; [exact Hx|].
    rewrite store_GetCurrentCommit_run in Hcommit. injection Hcommit as _ <-.
    unfold time_Now in Hnow. injection Hnow as <- <-.
    destruct err as [e1|]; [|discriminate He]. injection He as ->.
    pose proof (saveBackupState_effect _ _ _ _ _ _ Hsave) as (l & Htr & _ & Hq & _).
    split.
    + rewrite Htr, queries_app, Hq, app_nil_r.
      change (trace (emit EvNow (emit EvGetCurrentCommit w6)))
        with ((trace w6 ++ [EvGetCurrentCommit]) ++ [EvNow]).
      rewrite !queries_app. cbn [queries]. rewrite !app_nil_r.
      apply (exported_queries _ _ _ _ _ _ _ _ Hx).
    + right. eexists. rewrite Hsave. reflexivity.
Qed.

(** *** Witnesses of the further properties *)

Lemma atomicWriteFile_replaces_or_leaves_witness :
  let path := filepath_Join Demo.dir "issues.jsonl" in
  files (atomicWriteFile Demo.env path [x7b; x7d] Demo.fresh).2
  = <[path := [x7b; x7d]]> (files Demo.fresh)
  /\ forall p, p <> temp_path (Demo.failing_at 2 Demo.env) path Demo.fresh ->
       files (atomicWriteFile (Demo.failing_at 2 Demo.env) path [x7b; x7d] Demo.fresh).2 !! p
       = files Demo.fresh !! p.
Proof.
  intros path. split.
  - apply (atomicWriteFile_replaces_or_leaves Demo.env path [x7b; x7d] Demo.fresh
             (atomicWriteFile Demo.env path [x7b; x7d] Demo.fresh).2 None).
    + vm_compute. reflexivity.
    + vm_compute. discriminate.
    + reflexivity.
  - apply (atomicWriteFile_replaces_or_leaves (Demo.failing_at 2 Demo.env) path [x7b; x7d]
             Demo.fresh
             (atomicWriteFile (Demo.failing_at 2 Demo.env) path [x7b; x7d] Demo.fresh).2
             (Some (ErrMsg "failed to sync temp file: input/output error"))).
    + vm_compute. reflexivity.
    + vm_compute. discriminate.
    + discriminate.
Defined.

Lemma atomicWriteFile_call_order_witness :
  let path := filepath_Join Demo.dir "issues.jsonl" in
  let tmp := temp_path Demo.env path Demo.fresh in
  trace (atomicWriteFile Demo.env path [x7b; x7d] Demo.fresh).2
  = [EvCreateTemp tmp; EvWrite tmp [x7b; x7d]; EvSync tmp; EvClose tmp; EvRename tmp path].
Proof.
  intros path tmp.
  apply (atomicWriteFile_call_order Demo.env path [x7b; x7d] Demo.fresh
           (atomicWriteFile Demo.env path [x7b; x7d] Demo.fresh).2 None).
  - vm_compute. reflexivity.
  - reflexivity.
Defined.

Lemma atomicWriteFile_succeeds_witness :
  let path := filepath_Join Demo.dir "issues.jsonl" in
  (atomicWriteFile Demo.env path [x7b; x7d] Demo.fresh).1 = None
  /\ files (atomicWriteFile Demo.env path [x7b; x7d] Demo.fresh).2
     = <[path := [x7b; x7d]]> (files Demo.fresh).
Proof.
  intros path.
  apply (atomicWriteFile_succeeds Demo.env path [x7b; x7d] Demo.fresh).
  - intros k _. reflexivity.
  - reflexivity.
Defined.

Lemma save_then_load_witness :
  let w1 := (saveBackupState Demo.env Demo.dir Demo.first_state Demo.fresh).2 in
  loadBackupState Demo.env Demo.dir w1
  = (Ok Demo.first_state, emit (EvReadFile (state_path Demo.dir)) w1).
Proof.
  intros w1.
  destruct (save_then_load Demo.env Demo.dir Demo.first_state Demo.fresh w1 demo_round_trip)
    as (H & _ & _).
  - vm_compute. reflexivity.
  - apply H; reflexivity.
Defined.

Lemma backupDir_resolves_witness :
  (backupDir Demo.env Demo.fresh).1 = Ok Demo.dir
  /\ files (backupDir Demo.env Demo.fresh).2 = files Demo.fresh.
Proof.
  destruct (backupDir_resolves Demo.env Demo.fresh (backupDir Demo.env Demo.fresh).2
              (backupDir Demo.env Demo.fresh).1) as (Hfiles & _ & Hplain & _).
  - destruct (backupDir Demo.env Demo.fresh); reflexivity.
  - split; [|exact Hfiles]. destruct (Hplain eq_refl) as [_ Hr]. exact Hr.
Defined.

Lemma exportTable_no_rows_witness :
  let r := exportTable Demo.env Demo.dir "comments.jsonl" (commentsQuery false) Demo.fresh in
  r.1 = (0%Z, None)
  /\ files r.2 !! filepath_Join Demo.dir "comments.jsonl" = Some [].
Proof.
  intros r.
  destruct (exportTable_no_rows Demo.env Demo.dir "comments.jsonl" (commentsQuery false)
              Demo.fresh (Demo.table [] []) [] eq_refl eq_refl eq_refl eq_refl)
    as [Hrun Hfile].
  subst r. rewrite Hrun. cbn [fst snd]. split.
  - vm_compute. reflexivity.
  - apply Hfile. vm_compute. reflexivity.
Defined.

Lemma exportTable_success_witness :
  let w' := (exportTable Demo.env Demo.dir "issues.jsonl" (issuesQuery false) Demo.fresh).2 in
  exists rows cols,
    store_query Demo.env (now Demo.fresh) (issuesQuery false) [] = Ok rows
    /\ rows_Columns rows = Ok cols
    /\ rows_Err rows = None
    /\ forallb (row_ok Demo.env cols) (rows_steps rows) = true
    /\ 2%Z = Z.of_nat (length (rows_steps rows))
    /\ files w'
       = <[filepath_Join Demo.dir "issues.jsonl" := rows_lines Demo.env cols (rows_steps rows)]>
           (files Demo.fresh).
Proof.
  intros w'.
  apply (exportTable_success Demo.env Demo.dir "issues.jsonl" (issuesQuery false)
           Demo.fresh w' 2%Z).
  vm_compute. reflexivity.
Defined.

Lemma exportTable_touches_only_its_file_witness :
  let w := Demo.after_first_run in
  let w' := (exportTable Demo.env Demo.dir "issues.jsonl" (issuesQuery false) w).2 in
  files w' !! filepath_Join Demo.dir "events.jsonl"
  = files w !! filepath_Join Demo.dir "events.jsonl"
  /\ files w' !! state_path Demo.dir = files w !! state_path Demo.dir.
Proof.
  intros w w'.
  pose proof (exportTable_touches_only_its_file Demo.env Demo.dir "issues.jsonl"
                (issuesQuery false) w w' 2%Z None
                ltac:(vm_compute; reflexivity) eq_refl) as H.
  split; apply H; first [discriminate | reflexivity].
Defined.

Lemma events_snapshot_then_append_witness :
  (let w' := (exportEventsIncremental Demo.env Demo.dir zero_state false Demo.fresh).2 in
   exists rows cols,
     rows_Columns rows = Ok cols
     /\ length (rows_steps rows) = 3%nat
     /\ files w' !! events_path Demo.dir = Some (rows_lines Demo.env cols (rows_steps rows)))
  /\ (let w := Demo.second_run_at_events in
      let w' := (exportEventsIncremental Demo.env Demo.dir Demo.second_run_state false w).2 in
      exists rows cols,
        rows_Columns rows = Ok cols
        /\ length (rows_steps rows) = 2%nat
        /\ files w' !! events_path Demo.dir
           = Some (default [] (files Demo.after_first_run !! events_path Demo.dir)
                   ++ rows_lines Demo.env cols (rows_steps rows))).
Proof.
  split.
  - intros w'.
    destruct (events_snapshot_then_append Demo.env Demo.dir zero_state
                (set_LastEventID 3 zero_state) false Demo.fresh w' 3%Z
                ltac:(vm_compute; reflexivity) ltac:(discriminate))
      as (rows & cols & _ & Hcols & Hn & Hfirst & _).
    exists rows, cols. split; [exact Hcols|]. split; [lia|]. apply Hfirst. reflexivity.
  - intros w w'.
    destruct (events_snapshot_then_append Demo.env Demo.dir Demo.second_run_state
                (set_LastEventID 5 Demo.second_run_state) false w w' 2%Z
                ltac:(vm_compute; reflexivity) ltac:(discriminate))
      as (rows & cols & _ & Hcols & Hn & _ & Hlater).
    exists rows, cols. split; [exact Hcols|]. split; [lia|].
    rewrite Hlater by (vm_compute; discriminate).
    replace (files w !! events_path Demo.dir)
      with (files Demo.after_first_run !! events_path Demo.dir)
      by (vm_compute; reflexivity).
    reflexivity.
Defined.

Lemma events_append_keeps_content_witness :
  let E := Demo.failing_at 58 Demo.env in
  let w := Demo.second_run_at_events in
  let r := exportEventsIncremental E Demo.dir Demo.second_run_state false w in
  r.1.1.2 = Some (ErrMsg "failed to append events: input/output error")
  /\ exists added,
       files r.2 !! events_path Demo.dir
       = Some (default [] (files Demo.after_first_run !! events_path Demo.dir) ++ added).
Proof.
  intros E w r. split; [vm_compute; reflexivity|].
  apply (events_append_keeps_content E Demo.dir Demo.second_run_state r.1.2 false w r.2
           r.1.1.1 r.1.1.2).
  - subst r. destruct (exportEventsIncremental _ _ _ _ _) as [[[n err] st'] w']. reflexivity.
  - vm_compute. discriminate.
  - vm_compute. reflexivity.
Defined.

Lemma events_watermark_value_witness :
  let r := exportEventsIncremental Demo.env Demo.dir zero_state false Demo.fresh in
  LastEventID r.1.2 = 3%Z
  /\ exists rows cols,
       LastEventID r.1.2 = max_id Demo.env cols (rows_steps rows) 0
       /\ forall id, id ∈ observed_ids Demo.env cols (rows_steps rows) ->
                     (id <= LastEventID r.1.2)%Z.
Proof.
  intros r. split; [vm_compute; reflexivity|].
  destruct (events_watermark_value Demo.env Demo.dir zero_state r.1.2 false Demo.fresh r.2 3%Z
              ltac:(vm_compute; reflexivity) ltac:(discriminate))
    as (rows & cols & _ & _ & Hmax & _ & Hall & _).
  exists rows, cols. split; [exact Hmax|exact Hall].
Defined.

Lemma events_touches_only_its_file_witness :
  let w := Demo.second_run_at_events in
  let r := exportEventsIncremental Demo.env Demo.dir Demo.second_run_state false w in
  files r.2 !! filepath_Join Demo.dir "issues.jsonl"
  = files w !! filepath_Join Demo.dir "issues.jsonl"
  /\ files r.2 !! state_path Demo.dir = files w !! state_path Demo.dir.
Proof.
  intros w r.
  destruct (events_touches_only_its_file Demo.env Demo.dir Demo.second_run_state r.1.2
              false w r.2 r.1.1.1 r.1.1.2) as [H _].
  - subst r. destruct (exportEventsIncremental _ _ _ _ _) as [[[n err] st'] w']. reflexivity.
  - split; apply H; first [discriminate | reflexivity].
Defined.

Lemma force_skips_change_detection_witness :
  let w := Demo.after_first_run in
  let w2 := (loadBackupState Demo.env Demo.dir (backupDir Demo.env w).2).2 in
  exists (hw : bool) (l : list Event),
    tableExistsCheck Demo.env "wisps" w2
    = (hw, emit (EvQuery tableExistsQuery [VString "wisps"]) w2)
    /\ trace (runBackupExport Demo.env true w).2
       = trace w2 ++ EvQuery tableExistsQuery [VString "wisps"]
                     :: EvQuery (issuesQuery hw) [] :: l.
Proof.
  intros w w2.
  apply (force_skips_change_detection Demo.env w (backupDir Demo.env w).2 w2
           (runBackupExport Demo.env true w).2 Demo.dir Demo.first_state
           (runBackupExport Demo.env true w).1).
  - destruct (runBackupExport Demo.env true w); reflexivity.
  - vm_compute. reflexivity.
  - vm_compute. reflexivity.
Defined.

Lemma revision_query_failure_aborts_witness :
  let E := Demo.no_revision_env in
  let w2 := (loadBackupState E Demo.dir (backupDir E Demo.after_first_run).2).2 in
  runBackupExport E false Demo.after_first_run
  = (Err (ErrMsg "failed to get current commit: connection refused"),
     emit EvGetCurrentCommit w2)
  /\ files (emit EvGetCurrentCommit w2) = files Demo.after_first_run
  /\ queries (trace (emit EvGetCurrentCommit w2)) = queries (trace Demo.after_first_run).
Proof.
  intros E w2.
  apply (revision_query_failure_aborts E Demo.after_first_run
           (backupDir E Demo.after_first_run).2 w2 Demo.dir Demo.first_state
           (ErrMsg "connection refused")).
  - vm_compute. reflexivity.
  - vm_compute. reflexivity.
  - reflexivity.
Defined.

Lemma completed_run_state_witness :
  exists hw st6 w6 data,
    exported Demo.env Demo.dir hw run_order zero_state
      (tableExistsCheck Demo.env "wisps"
         (change_detection Demo.env false zero_state
            (loadBackupState Demo.env Demo.dir (backupDir Demo.env Demo.fresh).2).2).2).2
      st6 w6
    /\ store_commit Demo.env (now w6) = Ok (LastDoltCommit Demo.first_state)
    /\ Timestamp Demo.first_state = UTC (time_now Demo.env (S (now w6)))
    /\ LastEventID Demo.first_state = LastEventID st6
    /\ Counts Demo.first_state = Counts st6
    /\ json_MarshalIndent Demo.env Demo.first_state = Ok data
    /\ files Demo.after_first_run = <[state_path Demo.dir := data]> (files w6).
Proof.
  pose (w1 := (backupDir Demo.env Demo.fresh).2).
  pose (w2 := (loadBackupState Demo.env Demo.dir w1).2).
  apply (completed_run_state Demo.env false Demo.fresh w1 w2
           (change_detection Demo.env false zero_state w2).2
           Demo.after_first_run Demo.dir zero_state Demo.first_state).
  - vm_compute. reflexivity.
  - vm_compute. reflexivity.
  - vm_compute. reflexivity.
  - vm_compute. reflexivity.
Defined.

Lemma completed_run_snapshots_witness :
  exists t rows cols,
    store_query Demo.env t (issuesQuery false) [] = Ok rows
    /\ rows_Columns rows = Ok cols
    /\ files Demo.after_first_run !! filepath_Join Demo.dir "issues.jsonl"
       = Some (rows_lines Demo.env cols (rows_steps rows))
    /\ Issues (Counts Demo.first_state) = Z.of_nat (length (rows_steps rows)).
Proof.
  pose (w1 := (backupDir Demo.env Demo.fresh).2).
  pose (w2 := (loadBackupState Demo.env Demo.dir w1).2).
  destruct (completed_run_snapshots Demo.env false Demo.fresh w1 w2
              (change_detection Demo.env false zero_state w2).2
              Demo.after_first_run Demo.dir zero_state Demo.first_state issues
              ltac:(vm_compute; reflexivity) ltac:(vm_compute; reflexivity)
              ltac:(vm_compute; reflexivity) ltac:(vm_compute; reflexivity)
              ltac:(discriminate))
    as (t & rows & cols & _ & Hq & Hcols & Hfile & Hcount).
  exists t, rows, cols.
  replace (tableExistsCheck Demo.env "wisps"
             (change_detection Demo.env false zero_state w2).2).1 with false in Hq
    by (vm_compute; reflexivity).
  auto.
Defined.

Lemma unchanged_repeat_is_a_no_op_witness :
  let w' := Demo.after_first_run in
  let w3 := emit EvGetCurrentCommit
              (emit (EvReadFile (state_path Demo.dir)) (backupDir Demo.env w').2) in
  runBackupExport Demo.env false w' = (Ok Demo.first_state, w3)
  /\ files w3 = files w'
  /\ queries (trace w3) = queries (trace w').
Proof.
  intros w' w3.
  apply (unchanged_repeat_is_a_no_op Demo.env false Demo.fresh
           (backupDir Demo.env Demo.fresh).2 w' (backupDir Demo.env w').2
           Demo.dir Demo.first_state demo_round_trip).
  - vm_compute. reflexivity.
  - vm_compute. reflexivity.
  - vm_compute. reflexivity.
  - reflexivity.
  - vm_compute. reflexivity.
  - vm_compute. discriminate.
Defined.

Lemma failed_run_keeps_appended_events_witness :
  let E := Demo.failing_at 61 Demo.env in
  let w := Demo.after_first_run in
  let w' := (runBackupExport E true w).2 in
  (exists added,
      added <> []
      /\ files w' !! events_path Demo.dir
         = Some (default [] (files w !! events_path Demo.dir) ++ added))
  /\ stored_state E Demo.dir (files w') = Ok Demo.first_state.
Proof.
  intros E w w'.
  pose (w1 := (backupDir E w).2).
  pose (w2 := (loadBackupState E Demo.dir w1).2).
  pose (w4 := (tableExistsCheck E "wisps" w2).2).
  pose (s1 := export_entity E Demo.dir false issues Demo.first_state w4).
  pose (s2 := export_entity E Demo.dir false events s1.1.2 s1.2).
  destruct (failed_run_keeps_appended_events E true w w1 w2 w2 w4 s2.2 w' Demo.dir
              Demo.first_state s2.1.2 false
              (ErrMsg "backup comments: failed to create temp file: input/output error"))
    as [Hfile Hstate].
  - vm_compute. reflexivity.
  - vm_compute. reflexivity.
  - vm_compute. reflexivity.
  - vm_compute. reflexivity.
  - vm_compute. reflexivity.
  - apply (exported_cons E Demo.dir false issues [events] Demo.first_state w4
             s1.1.1.1 s1.1.2 s1.2 s2.1.2 s2.2); [vm_compute; reflexivity|].
    apply (exported_cons E Demo.dir false events [] s1.1.2 s1.2
             s2.1.1.1 s2.1.2 s2.2 s2.1.2 s2.2); [vm_compute; reflexivity|].
    apply exported_nil.
  - split; [|exact Hstate].
    rewrite Hfile.
    exists (rows_lines E ["id"; "event_type"]
              (map ScanOk [Demo.event_row 4 "reopened"; Demo.event_row 5 "closed"])).
    split; [vm_compute; discriminate|vm_compute; reflexivity].
Defined.

Lemma run_stops_at_first_failure_witness :
  let E := Demo.failing_at 61 Demo.env in
  let w := Demo.after_first_run in
  let w4 := (tableExistsCheck E "wisps"
               (loadBackupState E Demo.dir (backupDir E w).2).2).2 in
  queries (trace (runBackupExport E true w).2)
  = queries (trace w4) ++ [issuesQuery false; eventsQuery false; commentsQuery false].
Proof.
  intros E w w4.
  pose (w1 := (backupDir E w).2).
  pose (w2 := (loadBackupState E Demo.dir w1).2).
  destruct (run_stops_at_first_failure E true w w1 w2 w2 w4 (runBackupExport E true w).2
              Demo.dir Demo.first_state false
              (ErrMsg "backup comments: failed to create temp file: input/output error")
              ltac:(vm_compute; reflexivity) ltac:(vm_compute; reflexivity)
              ltac:(vm_compute; reflexivity) ltac:(vm_compute; reflexivity)
              ltac:(vm_compute; reflexivity))
    as [(done & ent & rest & st_k & w_k & n & e0 & st_x & Horder & _ & _ & He & Hq)
       |(st6 & w6 & _ & Hq & _)].
  - assert (Hent : ent = comments)
      by (destruct ent, e0; vm_compute in He; first [reflexivity | discriminate He]).
    subst ent.
    assert (Hdone : done = [issues; events]).
    { unfold run_order in Horder.
      destruct done as [|d1 [|d2 [|d3 [|d4 [|d5 [|d6 [|d7 done]]]]]]];
        cbn [app] in Horder; congruence. }
    subst done. exact Hq.
  - exfalso. vm_compute in Hq. discriminate Hq.
Defined.
